(** * SigDigger panoramic dialog: sweep / zoom state engine

    A shallow embedding of [Components/PanoramicDialog.cpp]: the saved
    spectrum and its export, the per-device gain store of the dialog
    configuration, the scan-range adjustment, the zoom and pan window
    computation, and the band-plan loader.

    Conventions of the embedding:
    - [qint64] values are integers of [Z]; signed overflow is undefined in
      C++, and [getZoomRange_no_overflow] shows that none occurs for
      frequencies within 2^60 in magnitude.  The one operation that leaves
      the range on a value inside it, the negation of the least [qint64]
      in [getFrequencyUnits], wraps around ([wrap_qint64]).  Integer [/]
      truncates towards zero ([Z.quot]).
    - [SUFREQ] (double) values are exact rationals of [Q].  Single
      precision is rounded where the dialog computes in it: the relative
      bandwidth and the fixed-frequency test of [getZoomRange] go through
      [to_float], as do the numbers read from a Suscan object.  Samples
      and gains are [float] values that are stored and handed on as they
      are.  [static_cast<qint64>] of a floating value truncates towards
      zero.
    - A Qt spin box, slider or button is the value it holds; a setter stores
      its argument.  Calls that only repaint or enable controls
      ([refreshUi], the labels, the sample rate spin box) are left out.
    - The waterfall widget is an external collaborator: it is the record of
      the values the dialog sets on it and reads back from it, and a call
      on it returns the signals it emits.  The connections of
      [connectWaterfall] are direct, so the slot of a signal runs inside
      the call that emits it.  A method called through the [m_waterfall]
      pointer without a null check has no result ([None]) when the pointer
      is null. *)

From Stdlib Require Import ZArith QArith Qabs Qminmax Qround String Ascii List.
From Stdlib Require Import Lia Bool.
From Stdlib Require Import DecimalString Lqa.
From stdpp Require Import base option list gmap strings.

Local Open Scope Z_scope.

(** ** Machine values *)

(** [qint64]: a signed 64-bit integer. *)
Definition qint64 := Z.

Definition in_qint64 (z : Z) : Prop := - 2 ^ 63 <= z < 2 ^ 63.

(** [SUFREQ] is a double, [SUFLOAT] and [float] are single precision. *)
Definition SUFREQ := Q.
Definition SUFLOAT := Q.

(** [static_cast<qint64>(x)] for a floating value [x]: truncation towards
    zero. *)
Definition to_qint64 (x : Q) : qint64 := Z.quot (Qnum x) (Z.pos (Qden x)).

(** A [qint64] converted to floating point for a mixed comparison. *)
Definition of_qint64 (z : qint64) : Q := inject_Z z.

(** The [qint64] an integer result is stored as: two's complement, so
    that the opposite of the least value is that value again. *)
Definition wrap_qint64 (z : Z) : qint64 := (z + 2 ^ 63) mod 2 ^ 64 - 2 ^ 63.

(** *** Single precision

    A [float] is a rational [m * 2 ^ e] with [|m| < 2 ^ 24] and
    [-149 <= e]; a value that is not one is rounded to the nearest of
    them, a tie to the even [m].  The largest [float] is [FLT_MAX]: the
    values the dialog computes stay far below it (integers of 64 bits and
    a slider position), and a number read from a Suscan object is checked
    against it. *)

(** [2 ^ e], for a negative [e] as well. *)
Definition pow2 (e : Z) : Q :=
  if 0 <=? e then inject_Z (2 ^ e) else (/ inject_Z (2 ^ (- e)))%Q.

(** The exponent of the leading bit of [x > 0]. *)
Definition ilog2 (x : Q) : Z :=
  let e := Z.log2 (Qnum x) - Z.log2 (Z.pos (Qden x)) in
  if Qle_bool (pow2 e) x then e else e - 1.

(** The nearest integer, a tie going to the even one. *)
Definition round_even (x : Q) : Z :=
  let f := Qfloor x in
  match Qcompare (x - inject_Z f) (1 # 2) with
  | Lt => f
  | Gt => f + 1
  | Eq => if Z.even f then f else f + 1
  end.

(** The conversion to [float], and the rounding of a [float] result. *)
Definition to_float (x : Q) : SUFLOAT :=
  if Qeq_bool x 0 then 0%Q
  else
    let e := Z.max (ilog2 (Qabs x) - 23) (- 149) in
    let r := Qred (inject_Z (round_even (Qabs x / pow2 e)) * pow2 e) in
    if Qle_bool 0 x then r else (- r)%Q.
Arguments to_float : simpl never.

Definition FLT_MAX : Q := inject_Z ((2 ^ 24 - 1) * 2 ^ 104).

(** ** Text output *)

Definition nl : string := String "010"%char EmptyString.

(** [operator<<] of a [qint64]: its decimal digits, with a leading [-] when
    negative. *)
Definition show_qint64 (z : qint64) : string :=
  NilZero.string_of_int (Z.to_int z).

(** [std::numeric_limits<float>::digits10]. *)
Definition float_digits10 : nat := 6%nat.

(** An output stream: the text written so far and the precision used for
    floating values. *)
Record ofstream := {
  of_text : string;
  of_precision : nat
}.

Definition of_open : ofstream := {| of_text := ""; of_precision := 6%nat |}.

Definition put (s : string) (o : ofstream) : ofstream :=
  {| of_text := of_text o +:+ s; of_precision := of_precision o |}.

Definition setprecision (p : nat) (o : ofstream) : ofstream :=
  {| of_text := of_text o; of_precision := p |}.

(** ** The file system seen by [std::ofstream] *)

(** [fs_files] maps a path to its contents; [fs_locked] are the paths that
    cannot be opened for writing. *)
Record FileSystem := {
  fs_files : gmap string string;
  fs_locked : gset string
}.

Definition can_open (fs : FileSystem) (path : string) : bool :=
  bool_decide (path ∉ fs_locked fs).

Definition write_file (fs : FileSystem) (path text : string) : FileSystem :=
  {| fs_files := <[path := text]> (fs_files fs); fs_locked := fs_locked fs |}.

(** ** SavedSpectrum *)

Record SavedSpectrum := {
  start : qint64;
  end_ : qint64;
  data : list SUFLOAT
}.

Module SavedSpectrumOps.

(** [SavedSpectrum::set] *)
Definition set (_ : SavedSpectrum) (start0 end0 : qint64)
    (data0 : list SUFLOAT) : SavedSpectrum :=
  {| start := start0; end_ := end0; data := data0 |}.

Section ExportText.
(** [operator<<] of a [float] at a given stream precision (the C++
    library's general format). *)
Variable show_float : nat -> SUFLOAT -> string.

Definition put_float (p : SUFLOAT) (o : ofstream) : ofstream :=
  put (show_float (of_precision o) p) o.

(** The loop [for (auto p : this->data) of << p << " ";] *)
Fixpoint put_samples (l : list SUFLOAT) (o : ofstream) : ofstream :=
  match l with
  | [] => o
  | p :: l' => put_samples l' (put " " (put_float p o))
  end.

(** The text [SavedSpectrum::exportToFile] sends to the stream. *)
Definition export_stream (sp : SavedSpectrum) : ofstream :=
  let o := of_open in
  let o := put ("%" +:+ nl) o in
  let o := put ("% Panoramic Spectrum file generated by SigDigger" +:+ nl) o in
  let o := put ("%" +:+ nl +:+ nl) o in
  let o := put ";" (put (show_qint64 (start sp)) (put "freqMin = " o)) in
  let o := put nl o in
  let o := put ";" (put (show_qint64 (end_ sp)) (put "freqMax = " o)) in
  let o := put nl o in
  let o := put "PSD = [ " o in
  let o := setprecision float_digits10 o in
  let o := put_samples (data sp) o in
  put ("];" +:+ nl) o.

(** [SavedSpectrum::exportToFile]: [false] when the stream does not
    open, otherwise the file holds the text and the result is [true]. *)
Definition exportToFile (sp : SavedSpectrum) (path : string)
    (fs : FileSystem) : bool * FileSystem :=
  if negb (can_open fs path) then (false, fs)
  else (true, write_file fs path (of_text (export_stream sp))).

(** The file as the format is documented: the comment header, the two
    frequency lines and the [PSD] line with the samples separated by
    single spaces. *)
Definition export_text (a b : qint64) (d : list SUFLOAT) : string :=
  "%" +:+ nl
  +:+ "% Panoramic Spectrum file generated by SigDigger" +:+ nl
  +:+ "%" +:+ nl
  +:+ nl
  +:+ "freqMin = " +:+ show_qint64 a +:+ ";" +:+ nl
  +:+ "freqMax = " +:+ show_qint64 b +:+ ";" +:+ nl
  +:+ "PSD = [ "
  +:+ String.concat " " (map (show_float float_digits10) d)
  +:+ " ];" +:+ nl.

End ExportText.

End SavedSpectrumOps.

(** ** PanoramicDialogConfig: the per-device gain store *)

Record PanoramicDialogConfig := {
  gains : gmap string SUFLOAT
}.

Module Config.

(** ["gain." + dev + "." + name] *)
Definition fullName (dev name : string) : string :=
  "gain." +:+ dev +:+ "." +:+ name.

(** [PanoramicDialogConfig::hasGain] *)
Definition hasGain (c : PanoramicDialogConfig) (dev name : string) : bool :=
  bool_decide (is_Some (gains c !! fullName dev name)).

(** [PanoramicDialogConfig::getGain] *)
Definition getGain (c : PanoramicDialogConfig) (dev name : string) : SUFLOAT :=
  match gains c !! fullName dev name with
  | None => 0%Q
  | Some v => v
  end.

(** [PanoramicDialogConfig::setGain] *)
Definition setGain (c : PanoramicDialogConfig) (dev name : string)
    (val : SUFLOAT) : PanoramicDialogConfig :=
  {| gains := <[fullName dev name := val]> (gains c) |}.

(** A configuration object that was never written to. *)
Definition fresh : PanoramicDialogConfig := {| gains := ∅ |}.

(** Whether a string holds a given character. *)
Fixpoint has_char (c : ascii) (s : string) : bool :=
  match s with
  | EmptyString => false
  | String a s' => if Ascii.eqb a c then true else has_char c s'
  end.

End Config.

(** ** The waterfall widget, as the dialog drives it *)

Record Waterfall := {
  wf_freqUnits : Z;
  wf_spanFreq : qint64;
  wf_sampleRate : qint64;
  wf_centerFreq : qint64;
  wf_fftCenterFreq : qint64;
  wf_filterOffset : qint64;
  wf_partialFftData : list (qint64 * qint64 * list SUFLOAT);
  wf_demodRanges : Q * Q * Q * Q * bool;
  wf_lowCut : Q;
  wf_hiCut : Q;
  wf_runningState : bool
}.

(** The signals of the waterfall that [connectWaterfall] attaches to a
    slot of the dialog and that a call made by the dialog can raise. *)
Inductive WaterfallSignal :=
| newZoomLevel.

Module WaterfallOps.

Definition setFreqUnits (u : Z) (w : Waterfall) : Waterfall :=
  {| wf_freqUnits := u; wf_spanFreq := wf_spanFreq w;
     wf_sampleRate := wf_sampleRate w; wf_centerFreq := wf_centerFreq w;
     wf_fftCenterFreq := wf_fftCenterFreq w;
     wf_filterOffset := wf_filterOffset w;
     wf_partialFftData := wf_partialFftData w;
     wf_demodRanges := wf_demodRanges w; wf_lowCut := wf_lowCut w;
     wf_hiCut := wf_hiCut w; wf_runningState := wf_runningState w |}.

Definition setSpanFreq (f : qint64) (w : Waterfall) : Waterfall :=
  {| wf_freqUnits := wf_freqUnits w; wf_spanFreq := f;
     wf_sampleRate := wf_sampleRate w; wf_centerFreq := wf_centerFreq w;
     wf_fftCenterFreq := wf_fftCenterFreq w;
     wf_filterOffset := wf_filterOffset w;
     wf_partialFftData := wf_partialFftData w;
     wf_demodRanges := wf_demodRanges w; wf_lowCut := wf_lowCut w;
     wf_hiCut := wf_hiCut w; wf_runningState := wf_runningState w |}.

Definition setSampleRate (f : qint64) (w : Waterfall) : Waterfall :=
  {| wf_freqUnits := wf_freqUnits w; wf_spanFreq := wf_spanFreq w;
     wf_sampleRate := f; wf_centerFreq := wf_centerFreq w;
     wf_fftCenterFreq := wf_fftCenterFreq w;
     wf_filterOffset := wf_filterOffset w;
     wf_partialFftData := wf_partialFftData w;
     wf_demodRanges := wf_demodRanges w; wf_lowCut := wf_lowCut w;
     wf_hiCut := wf_hiCut w; wf_runningState := wf_runningState w |}.

Definition setCenterFreq (f : qint64) (w : Waterfall) : Waterfall :=
  {| wf_freqUnits := wf_freqUnits w; wf_spanFreq := wf_spanFreq w;
     wf_sampleRate := wf_sampleRate w; wf_centerFreq := f;
     wf_fftCenterFreq := wf_fftCenterFreq w;
     wf_filterOffset := wf_filterOffset w;
     wf_partialFftData := wf_partialFftData w;
     wf_demodRanges := wf_demodRanges w; wf_lowCut := wf_lowCut w;
     wf_hiCut := wf_hiCut w; wf_runningState := wf_runningState w |}.

Definition setFftCenterFreq (f : qint64) (w : Waterfall) : Waterfall :=
  {| wf_freqUnits := wf_freqUnits w; wf_spanFreq := wf_spanFreq w;
     wf_sampleRate := wf_sampleRate w; wf_centerFreq := wf_centerFreq w;
     wf_fftCenterFreq := f;
     wf_filterOffset := wf_filterOffset w;
     wf_partialFftData := wf_partialFftData w;
     wf_demodRanges := wf_demodRanges w; wf_lowCut := wf_lowCut w;
     wf_hiCut := wf_hiCut w; wf_runningState := wf_runningState w |}.

(** Modelled from the spec: [Waterfall::resetHorizontalZoom] belongs to
    the widget, whose code is missing here.  The view goes back to the
    whole span, centred, and the widget reports the new zoom level with
    its signal [newZoomLevel]; [connectWaterfall] attaches that signal to
    [onNewZoomLevel], the one slot that writes the fixed-frequency flag.
    This is how a range change reaches the flag, as the side effect
    contract of the scan range asks, and how the window is recomputed,
    with [detailChanged] raised while a scan is active. *)
Definition resetHorizontalZoom (w : Waterfall)
    : Waterfall * list WaterfallSignal :=
  (setSpanFreq (wf_sampleRate w) (setFftCenterFreq 0 w), [newZoomLevel]).

Definition set_partialFftData (d : list (qint64 * qint64 * list SUFLOAT))
    (w : Waterfall) : Waterfall :=
  {| wf_freqUnits := wf_freqUnits w; wf_spanFreq := wf_spanFreq w;
     wf_sampleRate := wf_sampleRate w; wf_centerFreq := wf_centerFreq w;
     wf_fftCenterFreq := wf_fftCenterFreq w;
     wf_filterOffset := wf_filterOffset w;
     wf_partialFftData := d;
     wf_demodRanges := wf_demodRanges w; wf_lowCut := wf_lowCut w;
     wf_hiCut := wf_hiCut w; wf_runningState := wf_runningState w |}.

Definition clearPartialFftData (w : Waterfall) : Waterfall :=
  set_partialFftData [] w.

Definition setNewPartialFftData (d : list SUFLOAT) (freqStart freqEnd : qint64)
    (w : Waterfall) : Waterfall :=
  set_partialFftData ((freqStart, freqEnd, d) :: wf_partialFftData w) w.

Definition setDemodRanges (a b c d : Q) (symm : bool) (w : Waterfall)
    : Waterfall :=
  {| wf_freqUnits := wf_freqUnits w; wf_spanFreq := wf_spanFreq w;
     wf_sampleRate := wf_sampleRate w; wf_centerFreq := wf_centerFreq w;
     wf_fftCenterFreq := wf_fftCenterFreq w;
     wf_filterOffset := wf_filterOffset w;
     wf_partialFftData := wf_partialFftData w;
     wf_demodRanges := (a, b, c, d, symm); wf_lowCut := wf_lowCut w;
     wf_hiCut := wf_hiCut w; wf_runningState := wf_runningState w |}.

Definition setHiLowCutFrequencies (lo hi : Q) (w : Waterfall) : Waterfall :=
  {| wf_freqUnits := wf_freqUnits w; wf_spanFreq := wf_spanFreq w;
     wf_sampleRate := wf_sampleRate w; wf_centerFreq := wf_centerFreq w;
     wf_fftCenterFreq := wf_fftCenterFreq w;
     wf_filterOffset := wf_filterOffset w;
     wf_partialFftData := wf_partialFftData w;
     wf_demodRanges := wf_demodRanges w; wf_lowCut := lo;
     wf_hiCut := hi; wf_runningState := wf_runningState w |}.

Definition setRunningState (b : bool) (w : Waterfall) : Waterfall :=
  {| wf_freqUnits := wf_freqUnits w; wf_spanFreq := wf_spanFreq w;
     wf_sampleRate := wf_sampleRate w; wf_centerFreq := wf_centerFreq w;
     wf_fftCenterFreq := wf_fftCenterFreq w;
     wf_filterOffset := wf_filterOffset w;
     wf_partialFftData := wf_partialFftData w;
     wf_demodRanges := wf_demodRanges w; wf_lowCut := wf_lowCut w;
     wf_hiCut := wf_hiCut w; wf_runningState := b |}.

End WaterfallOps.

(** ** The dialog state *)

(** A device descriptor, as far as the range logic reads it. *)
Record Device := {
  dev_driver : string;
  dev_minFreq : SUFREQ;
  dev_maxFreq : SUFREQ
}.

Record PanoramicDialog := {
  ui_rangeStartSpin : SUFREQ;
  ui_rangeEndSpin : SUFREQ;
  ui_lnbDoubleSpinBox : SUFREQ;
  ui_relBwSlider : Z;
  ui_exportButton : bool;
  m_waterfall : option Waterfall;
  m_running : bool;
  m_frames : Z;
  m_freqStart : qint64;
  m_freqEnd : qint64;
  m_demodFreq : qint64;
  m_saved : SavedSpectrum;
  m_minBwForZoom : Z;
  m_currBw : qint64;
  m_fixedFreqMode : bool
}.

(** Signals the dialog emits. *)
Inductive Signal :=
| detailChanged (min max : qint64) (noHop : bool)
| sig_start
| sig_stop.

Module Dialog.
Import WaterfallOps.

Definition set_rangeStartSpin (v : SUFREQ) (s : PanoramicDialog) :=
  {| ui_rangeStartSpin := v; ui_rangeEndSpin := ui_rangeEndSpin s;
     ui_lnbDoubleSpinBox := ui_lnbDoubleSpinBox s;
     ui_relBwSlider := ui_relBwSlider s; ui_exportButton := ui_exportButton s;
     m_waterfall := m_waterfall s; m_running := m_running s;
     m_frames := m_frames s; m_freqStart := m_freqStart s;
     m_freqEnd := m_freqEnd s; m_demodFreq := m_demodFreq s;
     m_saved := m_saved s; m_minBwForZoom := m_minBwForZoom s;
     m_currBw := m_currBw s; m_fixedFreqMode := m_fixedFreqMode s |}.

Definition set_rangeEndSpin (v : SUFREQ) (s : PanoramicDialog) :=
  {| ui_rangeStartSpin := ui_rangeStartSpin s; ui_rangeEndSpin := v;
     ui_lnbDoubleSpinBox := ui_lnbDoubleSpinBox s;
     ui_relBwSlider := ui_relBwSlider s; ui_exportButton := ui_exportButton s;
     m_waterfall := m_waterfall s; m_running := m_running s;
     m_frames := m_frames s; m_freqStart := m_freqStart s;
     m_freqEnd := m_freqEnd s; m_demodFreq := m_demodFreq s;
     m_saved := m_saved s; m_minBwForZoom := m_minBwForZoom s;
     m_currBw := m_currBw s; m_fixedFreqMode := m_fixedFreqMode s |}.

Definition set_exportButton (b : bool) (s : PanoramicDialog) :=
  {| ui_rangeStartSpin := ui_rangeStartSpin s;
     ui_rangeEndSpin := ui_rangeEndSpin s;
     ui_lnbDoubleSpinBox := ui_lnbDoubleSpinBox s;
     ui_relBwSlider := ui_relBwSlider s; ui_exportButton := b;
     m_waterfall := m_waterfall s; m_running := m_running s;
     m_frames := m_frames s; m_freqStart := m_freqStart s;
     m_freqEnd := m_freqEnd s; m_demodFreq := m_demodFreq s;
     m_saved := m_saved s; m_minBwForZoom := m_minBwForZoom s;
     m_currBw := m_currBw s; m_fixedFreqMode := m_fixedFreqMode s |}.

Definition set_waterfall (w : option Waterfall) (s : PanoramicDialog) :=
  {| ui_rangeStartSpin := ui_rangeStartSpin s;
     ui_rangeEndSpin := ui_rangeEndSpin s;
     ui_lnbDoubleSpinBox := ui_lnbDoubleSpinBox s;
     ui_relBwSlider := ui_relBwSlider s; ui_exportButton := ui_exportButton s;
     m_waterfall := w; m_running := m_running s;
     m_frames := m_frames s; m_freqStart := m_freqStart s;
     m_freqEnd := m_freqEnd s; m_demodFreq := m_demodFreq s;
     m_saved := m_saved s; m_minBwForZoom := m_minBwForZoom s;
     m_currBw := m_currBw s; m_fixedFreqMode := m_fixedFreqMode s |}.

Definition set_running (b : bool) (s : PanoramicDialog) :=
  {| ui_rangeStartSpin := ui_rangeStartSpin s;
     ui_rangeEndSpin := ui_rangeEndSpin s;
     ui_lnbDoubleSpinBox := ui_lnbDoubleSpinBox s;
     ui_relBwSlider := ui_relBwSlider s; ui_exportButton := ui_exportButton s;
     m_waterfall := m_waterfall s; m_running := b;
     m_frames := m_frames s; m_freqStart := m_freqStart s;
     m_freqEnd := m_freqEnd s; m_demodFreq := m_demodFreq s;
     m_saved := m_saved s; m_minBwForZoom := m_minBwForZoom s;
     m_currBw := m_currBw s; m_fixedFreqMode := m_fixedFreqMode s |}.

Definition set_frames (n : Z) (s : PanoramicDialog) :=
  {| ui_rangeStartSpin := ui_rangeStartSpin s;
     ui_rangeEndSpin := ui_rangeEndSpin s;
     ui_lnbDoubleSpinBox := ui_lnbDoubleSpinBox s;
     ui_relBwSlider := ui_relBwSlider s; ui_exportButton := ui_exportButton s;
     m_waterfall := m_waterfall s; m_running := m_running s;
     m_frames := n; m_freqStart := m_freqStart s;
     m_freqEnd := m_freqEnd s; m_demodFreq := m_demodFreq s;
     m_saved := m_saved s; m_minBwForZoom := m_minBwForZoom s;
     m_currBw := m_currBw s; m_fixedFreqMode := m_fixedFreqMode s |}.

Definition set_freqStartEnd (a b : qint64) (s : PanoramicDialog) :=
  {| ui_rangeStartSpin := ui_rangeStartSpin s;
     ui_rangeEndSpin := ui_rangeEndSpin s;
     ui_lnbDoubleSpinBox := ui_lnbDoubleSpinBox s;
     ui_relBwSlider := ui_relBwSlider s; ui_exportButton := ui_exportButton s;
     m_waterfall := m_waterfall s; m_running := m_running s;
     m_frames := m_frames s; m_freqStart := a;
     m_freqEnd := b; m_demodFreq := m_demodFreq s;
     m_saved := m_saved s; m_minBwForZoom := m_minBwForZoom s;
     m_currBw := m_currBw s; m_fixedFreqMode := m_fixedFreqMode s |}.

Definition set_demodFreq (f : qint64) (s : PanoramicDialog) :=
  {| ui_rangeStartSpin := ui_rangeStartSpin s;
     ui_rangeEndSpin := ui_rangeEndSpin s;
     ui_lnbDoubleSpinBox := ui_lnbDoubleSpinBox s;
     ui_relBwSlider := ui_relBwSlider s; ui_exportButton := ui_exportButton s;
     m_waterfall := m_waterfall s; m_running := m_running s;
     m_frames := m_frames s; m_freqStart := m_freqStart s;
     m_freqEnd := m_freqEnd s; m_demodFreq := f;
     m_saved := m_saved s; m_minBwForZoom := m_minBwForZoom s;
     m_currBw := m_currBw s; m_fixedFreqMode := m_fixedFreqMode s |}.

Definition set_saved (sp : SavedSpectrum) (s : PanoramicDialog) :=
  {| ui_rangeStartSpin := ui_rangeStartSpin s;
     ui_rangeEndSpin := ui_rangeEndSpin s;
     ui_lnbDoubleSpinBox := ui_lnbDoubleSpinBox s;
     ui_relBwSlider := ui_relBwSlider s; ui_exportButton := ui_exportButton s;
     m_waterfall := m_waterfall s; m_running := m_running s;
     m_frames := m_frames s; m_freqStart := m_freqStart s;
     m_freqEnd := m_freqEnd s; m_demodFreq := m_demodFreq s;
     m_saved := sp; m_minBwForZoom := m_minBwForZoom s;
     m_currBw := m_currBw s; m_fixedFreqMode := m_fixedFreqMode s |}.

Definition set_minBwForZoom (bw : Z) (s : PanoramicDialog) :=
  {| ui_rangeStartSpin := ui_rangeStartSpin s;
     ui_rangeEndSpin := ui_rangeEndSpin s;
     ui_lnbDoubleSpinBox := ui_lnbDoubleSpinBox s;
     ui_relBwSlider := ui_relBwSlider s; ui_exportButton := ui_exportButton s;
     m_waterfall := m_waterfall s; m_running := m_running s;
     m_frames := m_frames s; m_freqStart := m_freqStart s;
     m_freqEnd := m_freqEnd s; m_demodFreq := m_demodFreq s;
     m_saved := m_saved s; m_minBwForZoom := bw;
     m_currBw := m_currBw s; m_fixedFreqMode := m_fixedFreqMode s |}.

Definition set_currBw (bw : qint64) (s : PanoramicDialog) :=
  {| ui_rangeStartSpin := ui_rangeStartSpin s;
     ui_rangeEndSpin := ui_rangeEndSpin s;
     ui_lnbDoubleSpinBox := ui_lnbDoubleSpinBox s;
     ui_relBwSlider := ui_relBwSlider s; ui_exportButton := ui_exportButton s;
     m_waterfall := m_waterfall s; m_running := m_running s;
     m_frames := m_frames s; m_freqStart := m_freqStart s;
     m_freqEnd := m_freqEnd s; m_demodFreq := m_demodFreq s;
     m_saved := m_saved s; m_minBwForZoom := m_minBwForZoom s;
     m_currBw := bw; m_fixedFreqMode := m_fixedFreqMode s |}.

Definition set_fixedFreqMode (b : bool) (s : PanoramicDialog) :=
  {| ui_rangeStartSpin := ui_rangeStartSpin s;
     ui_rangeEndSpin := ui_rangeEndSpin s;
     ui_lnbDoubleSpinBox := ui_lnbDoubleSpinBox s;
     ui_relBwSlider := ui_relBwSlider s; ui_exportButton := ui_exportButton s;
     m_waterfall := m_waterfall s; m_running := m_running s;
     m_frames := m_frames s; m_freqStart := m_freqStart s;
     m_freqEnd := m_freqEnd s; m_demodFreq := m_demodFreq s;
     m_saved := m_saved s; m_minBwForZoom := m_minBwForZoom s;
     m_currBw := m_currBw s; m_fixedFreqMode := b |}.

(** *** Getters *)

Definition getLnbOffset (s : PanoramicDialog) : SUFREQ := ui_lnbDoubleSpinBox s.
Definition getMinFreq (s : PanoramicDialog) : SUFREQ := ui_rangeStartSpin s.
Definition getMaxFreq (s : PanoramicDialog) : SUFREQ := ui_rangeEndSpin s.

(** [relBwSlider->value() / 100.f]: the [int] of the slider is converted
    to [float] and divided in [float]. *)
Definition getRelBw (s : PanoramicDialog) : SUFLOAT :=
  to_float (to_float (inject_Z (ui_relBwSlider s)) / 100).

(** [a > b] on floating values. *)
Definition Qgt_bool (a b : Q) : bool := negb (Qle_bool a b).

(** *** Zoom and pan *)

(** The centre and the two border tests of [getZoomRange], named for the
    statements about it. *)
Definition zoomCenter (w : Waterfall) : qint64 :=
  wf_centerFreq w + wf_fftCenterFreq w.

Definition leftClamped (s : PanoramicDialog) (w : Waterfall) : bool :=
  Qle_bool (of_qint64 (zoomCenter w - wf_spanFreq w ÷ 2)) (getMinFreq s).

Definition rightClamped (s : PanoramicDialog) (w : Waterfall) : bool :=
  Qle_bool (getMaxFreq s) (of_qint64 (zoomCenter w + wf_spanFreq w ÷ 2)).

(** [PanoramicDialog::getZoomRange]: the results are the three reference
    parameters [min], [max] and [noHop].  The last line compares in
    [float]: [m_minBwForZoom] holds the [quint64] of its setter, the
    product with the [float] of [getRelBw] is a [float], and so the width
    is converted to [float] as well. *)
Definition getZoomRange (s : PanoramicDialog) : option (qint64 * qint64 * bool) :=
  w ← m_waterfall s;
  let leftBorder := false in
  let rightBorder := false in
  let fc := wf_centerFreq w + wf_fftCenterFreq w in
  let span := wf_spanFreq w in
  let min := fc - span ÷ 2 in
  let max := fc + span ÷ 2 in
  let '(leftBorder, min) :=
    if Qle_bool (of_qint64 min) (getMinFreq s)
    then (true, to_qint64 (getMinFreq s))
    else (leftBorder, min) in
  let '(rightBorder, max) :=
    if Qle_bool (getMaxFreq s) (of_qint64 max)
    then (true, to_qint64 (getMaxFreq s))
    else (rightBorder, max) in
  let '(min, max) :=
    if rightBorder || leftBorder then
      if leftBorder && negb rightBorder then (min, min + span)
      else if rightBorder && negb leftBorder then (max - span, max)
      else (min, max)
    else (min, max) in
  let noHop :=
    Qle_bool (to_float (of_qint64 (max - min)))
             (to_float (to_float (inject_Z (m_minBwForZoom s)) * getRelBw s)) in
  Some (min, max, noHop).

(** The results of [getZoomRange] as a function of the values it reads:
    the range, the threshold [minBw] and [relBw], and the centre [fc] and
    the span of the view. *)
Definition zoomWindow (lo hi : SUFREQ) (minBw : Z) (relBw : SUFLOAT)
    (fc span : qint64) : qint64 * qint64 * bool :=
  let leftBorder := Qle_bool (of_qint64 (fc - span ÷ 2)) lo in
  let rightBorder := Qle_bool hi (of_qint64 (fc + span ÷ 2)) in
  let min := if leftBorder then to_qint64 lo else fc - span ÷ 2 in
  let max := if rightBorder then to_qint64 hi else fc + span ÷ 2 in
  let '(min, max) :=
    if leftBorder && negb rightBorder then (min, min + span)
    else if rightBorder && negb leftBorder then (max - span, max)
    else (min, max) in
  (min, max,
   Qle_bool (to_float (of_qint64 (max - min)))
            (to_float (to_float (inject_Z minBw) * relBw))).
Arguments zoomWindow : simpl never.

(** [PanoramicDialog::onNewZoomLevel] *)
Definition onNewZoomLevel (s : PanoramicDialog)
    : option (PanoramicDialog * list Signal) :=
  '(min, max, noHop) ← getZoomRange s;
  let s := set_fixedFreqMode noHop s in
  let s := set_currBw (max - min) s in
  Some (s, if m_running s
           then [detailChanged min max (m_fixedFreqMode s)]
           else []).

(** The slot [connectWaterfall] attaches to each signal of the waterfall. *)
Definition waterfallSlot (sg : WaterfallSignal) (s : PanoramicDialog)
    : option (PanoramicDialog * list Signal) :=
  match sg with
  | newZoomLevel => onNewZoomLevel s
  end.

(** The delivery of the signals a call on the waterfall has raised: the
    slots run in turn, each on the state the one before it left.  The
    dialog holds the waterfall that raised them, so every slot has a
    result ([deliver_defined]). *)
Fixpoint deliver (emitted : list WaterfallSignal) (s : PanoramicDialog)
    : PanoramicDialog * list Signal :=
  match emitted with
  | [] => (s, [])
  | sg :: rest =>
      let '(s1, out1) := default (s, []) (waterfallSlot sg s) in
      let '(s2, out2) := deliver rest s1 in
      (s2, out1 ++ out2)
  end.

(** [PanoramicDialog::onNewFftCenterFreq] *)
Definition onNewFftCenterFreq (s : PanoramicDialog) (freq : qint64)
    : option (PanoramicDialog * list Signal) :=
  if negb (m_running s) then Some (s, [])
  else
    w ← m_waterfall s;
    let freq := freq + wf_centerFreq w in
    let span := m_currBw s in
    let min := freq - span ÷ 2 in
    let max := freq + span ÷ 2 in
    let leftBorder := false in
    let rightBorder := false in
    let '(leftBorder, min) :=
      if Qle_bool (of_qint64 min) (getMinFreq s)
      then (true, to_qint64 (getMinFreq s))
      else (leftBorder, min) in
    let '(rightBorder, max) :=
      if Qle_bool (getMaxFreq s) (of_qint64 max)
      then (true, to_qint64 (getMaxFreq s))
      else (rightBorder, max) in
    let '(min, max) :=
      if rightBorder || leftBorder then
        if leftBorder && negb rightBorder then (min, min + span)
        else if rightBorder && negb leftBorder then (max - span, max)
        else (min, max)
      else (min, max) in
    Some (s, [detailChanged min max (m_fixedFreqMode s)]).

(** *** Frames *)

(** [PanoramicDialog::redrawMeasures]: the member it updates (the labels
    it repaints hold no state of the engine). *)
Definition redrawMeasures (s : PanoramicDialog) : option PanoramicDialog :=
  w ← m_waterfall s;
  Some (set_demodFreq (wf_filterOffset w + wf_centerFreq w) s).

(** [PanoramicDialog::feed]; [data] and [size] are the list [data]. *)
Definition feed (s : PanoramicDialog) (freqStart freqEnd : qint64)
    (data : list SUFLOAT) : option PanoramicDialog :=
  let s :=
    if negb (m_freqStart s =? freqStart) || negb (m_freqEnd s =? freqEnd)
    then set_freqStartEnd freqStart freqEnd s
    else s in
  let s := set_saved (SavedSpectrumOps.set (m_saved s) freqStart freqEnd data) s in
  let s := set_exportButton true s in
  w ← m_waterfall s;
  let s := set_waterfall (Some (setNewPartialFftData data freqStart freqEnd w)) s in
  let s := set_frames (m_frames s + 1) s in
  redrawMeasures s.

(** [PanoramicDialog::setRunning] *)
Definition setRunning (running : bool) (s : PanoramicDialog) : PanoramicDialog :=
  let s :=
    if running && negb (m_running s) then set_frames 0 s else s in
  let s :=
    match m_waterfall s with
    | Some w => set_waterfall (Some (setRunningState running w)) s
    | None => s
    end in
  set_running running s.

(** [PanoramicDialog::setMinBwForZoom] *)
Definition setMinBwForZoom (bw : Z) (s : PanoramicDialog) : PanoramicDialog :=
  set_minBwForZoom bw s.

(** *** Scan range *)

(** [PanoramicDialog::getFrequencyUnits]; [freq = -freq] is stored in
    the [qint64] parameter. *)
Definition getFrequencyUnits (freq : qint64) : Z :=
  let freq := if freq <? 0 then wrap_qint64 (- freq) else freq in
  if freq <? 1000 then 1
  else if freq <? 1000000 then 1000
  else if freq <? 1000000000 then 1000000
  else 1000000000.

(** [PanoramicDialog::adjustRanges], with the signals the dialog emits
    while it runs: the reset of the zoom raises [newZoomLevel], whose slot
    runs there and then, on the waterfall as the calls before it have
    left it.  The two [setValue] calls of the swap store their values
    here; the slot they run on their way is added to them in
    [adjustRanges_reentrant_run]. *)
Definition adjustRanges_run (s : PanoramicDialog)
    : PanoramicDialog * list Signal :=
  let s :=
    if Qgt_bool (ui_rangeStartSpin s) (ui_rangeEndSpin s) then
      let val := ui_rangeStartSpin s in
      let s := set_rangeStartSpin (ui_rangeEndSpin s) s in
      set_rangeEndSpin val s
    else s in
  match m_waterfall s with
  | Some w =>
      let minFreq := ui_rangeStartSpin s in
      let maxFreq := ui_rangeEndSpin s in
      let bw := (maxFreq - minFreq)%Q in
      let w := setFreqUnits (getFrequencyUnits (to_qint64 maxFreq)) w in
      let w := setSpanFreq (to_qint64 (maxFreq - minFreq)%Q) w in
      let w := setSampleRate (to_qint64 (maxFreq - minFreq)%Q) w in
      let w := setCenterFreq (to_qint64 (maxFreq + minFreq)%Q ÷ 2) w in
      let '(w, emitted) := resetHorizontalZoom w in
      let '(s, out) := deliver emitted (set_waterfall (Some w) s) in
      let w := clearPartialFftData w in
      let demodBw := (bw / 20)%Q in
      let demodBw :=
        if Qgt_bool demodBw 4000000000 then 4000000000%Q else demodBw in
      let w := setDemodRanges (- bw / 2)%Q 0%Q 0%Q (bw / 2)%Q true w in
      let w := setHiLowCutFrequencies (- demodBw / 2)%Q (demodBw / 2)%Q w in
      (set_waterfall (Some w) s, out)
  | None => (s, [])
  end.

(** The dialog as [adjustRanges] leaves it. *)
Definition adjustRanges (s : PanoramicDialog) : PanoramicDialog :=
  (adjustRanges_run s).1.

(** The waterfall as [adjustRanges] leaves it for the range [lo .. hi],
    and the dialog with it: the range, the waterfall, and the flag and
    the width the zoom slot has stored on its way. *)
Definition waterfall_for_range (lo hi : SUFREQ) (w : Waterfall) : Waterfall :=
  let demodBw :=
    if Qgt_bool ((hi - lo) / 20) 4000000000
    then 4000000000%Q else ((hi - lo) / 20)%Q in
  {| wf_freqUnits := getFrequencyUnits (to_qint64 hi);
     wf_spanFreq := to_qint64 (hi - lo)%Q;
     wf_sampleRate := to_qint64 (hi - lo)%Q;
     wf_centerFreq := to_qint64 (hi + lo)%Q ÷ 2;
     wf_fftCenterFreq := 0;
     wf_filterOffset := wf_filterOffset w;
     wf_partialFftData := [];
     wf_demodRanges :=
       ((- (hi - lo) / 2)%Q, 0%Q, 0%Q, ((hi - lo) / 2)%Q, true);
     wf_lowCut := (- demodBw / 2)%Q;
     wf_hiCut := (demodBw / 2)%Q;
     wf_runningState := wf_runningState w |}.

Definition adjusted (lo hi : SUFREQ) (s : PanoramicDialog) : PanoramicDialog :=
  (* the zoom slot finds the view centred: the centre of the range, the
     offset 0 of the reset, the whole span *)
  let s := set_rangeEndSpin hi (set_rangeStartSpin lo s) in
  match m_waterfall s with
  | Some w =>
      let '(min, max, noHop) :=
        zoomWindow lo hi (m_minBwForZoom s) (getRelBw s)
                   (to_qint64 (hi + lo)%Q ÷ 2 + 0) (to_qint64 (hi - lo)%Q) in
      set_waterfall (Some (waterfall_for_range lo hi w))
        (set_currBw (max - min) (set_fixedFreqMode noHop s))
  | None => s
  end.

(** The signals of that run of [adjustRanges]. *)
Definition adjusted_signals (lo hi : SUFREQ) (s : PanoramicDialog)
    : list Signal :=
  match m_waterfall s with
  | Some w =>
      let '(min, max, noHop) :=
        zoomWindow lo hi (m_minBwForZoom s) (getRelBw s)
                   (to_qint64 (hi + lo)%Q ÷ 2 + 0) (to_qint64 (hi - lo)%Q) in
      if m_running s then [detailChanged min max noHop] else []
  | None => []
  end.

(** [PanoramicDialog::invalidRange] *)
Definition invalidRange (s : PanoramicDialog) : bool :=
  negb (Qle_bool 1 (Qabs (ui_rangeEndSpin s - ui_rangeStartSpin s))).

(** [setValue] of a range spin box as the swap of [adjustRanges] calls
    it: the value is stored and, when it differs from the one held,
    [valueChanged] runs the slot [onFreqRangeChanged], which is
    [adjustRanges] once more.  By then the range is in order
    ([swap_reenters_in_order]): the inner run has no swap of its own, and
    [adjustRanges_run] is all of it. *)
Definition swap_setStart (v : SUFREQ) (s : PanoramicDialog)
    : PanoramicDialog * list Signal :=
  if Qeq_bool (ui_rangeStartSpin s) v then (s, [])
  else adjustRanges_run (set_rangeStartSpin v s).

Definition swap_setEnd (v : SUFREQ) (s : PanoramicDialog)
    : PanoramicDialog * list Signal :=
  if Qeq_bool (ui_rangeEndSpin s) v then (s, [])
  else adjustRanges_run (set_rangeEndSpin v s).

(** [adjustRanges] with the slot re-entered from each of its own two
    [setValue] calls, as the signal connections make it run. *)
Definition adjustRanges_reentrant_run (s : PanoramicDialog)
    : PanoramicDialog * list Signal :=
  if Qgt_bool (ui_rangeStartSpin s) (ui_rangeEndSpin s) then
    let val := ui_rangeStartSpin s in
    let '(s, out1) := swap_setStart (ui_rangeEndSpin s) s in
    let '(s, out2) := swap_setEnd val s in
    let '(s, out3) := adjustRanges_run s in
    (s, out1 ++ out2 ++ out3)
  else adjustRanges_run s.

Definition adjustRanges_reentrant (s : PanoramicDialog) : PanoramicDialog :=
  (adjustRanges_reentrant_run s).1.

(** [PanoramicDialog::onFreqRangeChanged] *)
Definition onFreqRangeChanged (s : PanoramicDialog)
    : PanoramicDialog * list Signal :=
  adjustRanges_reentrant_run s.

(** [setValue] of the two range spin boxes, by the user or by
    [onFullRangeChanged]: the value is stored and, when it differs from
    the one held, [valueChanged] runs the connected slot
    [onFreqRangeChanged]. *)
Definition rangeStartSpin_setValue (v : SUFREQ) (s : PanoramicDialog)
    : PanoramicDialog * list Signal :=
  if Qeq_bool (ui_rangeStartSpin s) v then (s, [])
  else onFreqRangeChanged (set_rangeStartSpin v s).

Definition rangeEndSpin_setValue (v : SUFREQ) (s : PanoramicDialog)
    : PanoramicDialog * list Signal :=
  if Qeq_bool (ui_rangeEndSpin s) v then (s, [])
  else onFreqRangeChanged (set_rangeEndSpin v s).

(** [PanoramicDialog::onFullRangeChanged]; [dev] is the outcome of
    [getSelectedDevice]. *)
Definition onFullRangeChanged (checked : bool) (dev : option Device)
    (s : PanoramicDialog) : PanoramicDialog * list Signal :=
  match dev with
  | Some d =>
      if checked then
        let '(s, out1) :=
          rangeStartSpin_setValue (dev_minFreq d + getLnbOffset s)%Q s in
        let '(s, out2) :=
          rangeEndSpin_setValue (dev_maxFreq d + getLnbOffset s)%Q s in
        (s, out1 ++ out2)
      else (s, [])
  | None => (s, [])
  end.

(** *** Export *)

Section ExportSlot.
Variable show_float : nat -> SUFLOAT -> string.

(** [PanoramicDialog::onExport]: every round of the loop opens a file
    dialog; [choices] are the user's answers in turn, [None] for a dialog
    that is dismissed.  The result is the file system and the number of
    warnings shown. *)
Fixpoint onExport (choices : list (option string)) (s : PanoramicDialog)
    (fs : FileSystem) : FileSystem * nat :=
  match choices with
  | [] => (fs, O)
  | None :: _ => (fs, O)
  | Some path :: rest =>
      match SavedSpectrumOps.exportToFile show_float (m_saved s) path fs with
      | (true, fs') => (fs', O)
      | (false, fs') =>
          let '(fs'', n) := onExport rest s fs' in (fs'', S n)
      end
  end.

End ExportSlot.

(** What [adjustRanges] does to the waterfall: the partial spectra are
    dropped and the horizontal zoom is back to the whole span. *)
Definition waterfall_reset (s s' : PanoramicDialog) : Prop :=
  forall w, m_waterfall s = Some w ->
    exists w', m_waterfall s' = Some w'
      /\ wf_partialFftData w' = []
      /\ wf_fftCenterFreq w' = 0
      /\ wf_spanFreq w' = wf_sampleRate w'.

(** The members of the engine that do not belong to the range, to the
    waterfall or to the zoom. *)
Definition engine_kept (s s' : PanoramicDialog) : Prop :=
  m_saved s' = m_saved s
  /\ m_frames s' = m_frames s
  /\ m_running s' = m_running s
  /\ m_freqStart s' = m_freqStart s
  /\ m_freqEnd s' = m_freqEnd s
  /\ ui_exportButton s' = ui_exportButton s
  /\ m_minBwForZoom s' = m_minBwForZoom s
  /\ ui_relBwSlider s' = ui_relBwSlider s.

(** What the zoom slot leaves behind when [adjustRanges] has run on the
    dialog [s]: with a waterfall, the flag and the width stored in [s']
    are the ones [getZoomRange] computes there, and [out], the signals of
    the run, ends with the [detailChanged] for that window when a scan is
    active and is empty otherwise; without a waterfall, nothing is
    written and nothing emitted. *)
Definition zoom_recomputed (s s' : PanoramicDialog) (out : list Signal)
    : Prop :=
  match m_waterfall s with
  | Some _ =>
      exists min max,
        getZoomRange s' = Some (min, max, m_fixedFreqMode s')
        /\ m_currBw s' = max - min
        /\ (m_running s = true ->
            last out = Some (detailChanged min max (m_fixedFreqMode s')))
        /\ (m_running s = false -> out = [])
  | None =>
      m_fixedFreqMode s' = m_fixedFreqMode s
      /\ m_currBw s' = m_currBw s
      /\ out = []
  end.

(** All that one or more runs of [adjustRanges] have done to the dialog
    [s], ending in [s'] with the signals [out]. *)
Definition adjustRanges_done (s s' : PanoramicDialog) (out : list Signal)
    : Prop :=
  engine_kept s s'
  /\ waterfall_reset s s'
  /\ (m_waterfall s = None -> m_waterfall s' = None)
  /\ zoom_recomputed s s' out
  /\ (ui_rangeStartSpin s' <= ui_rangeEndSpin s')%Q.

(** *** Events *)

(** What can happen to the dialog: the user edits a range spin box or
    ticks the full-range box, the scanner delivers a frame or changes the
    running state, and the waterfall, after any change [f] of its own
    state, reports a new zoom level or a new centre offset. *)
Inductive Event :=
| EvRangeStart (v : SUFREQ)
| EvRangeEnd (v : SUFREQ)
| EvFullRange (checked : bool) (dev : option Device)
| EvFeed (freqStart freqEnd : qint64) (data : list SUFLOAT)
| EvSetRunning (running : bool)
| EvSetMinBwForZoom (bw : Z)
| EvRelBw (percent : Z)
| EvWaterfall (f : Waterfall -> Waterfall)
| EvNewZoomLevel
| EvNewFftCenterFreq (freq : qint64).

Definition set_relBwSlider (v : Z) (s : PanoramicDialog) :=
  {| ui_rangeStartSpin := ui_rangeStartSpin s;
     ui_rangeEndSpin := ui_rangeEndSpin s;
     ui_lnbDoubleSpinBox := ui_lnbDoubleSpinBox s;
     ui_relBwSlider := v; ui_exportButton := ui_exportButton s;
     m_waterfall := m_waterfall s; m_running := m_running s;
     m_frames := m_frames s; m_freqStart := m_freqStart s;
     m_freqEnd := m_freqEnd s; m_demodFreq := m_demodFreq s;
     m_saved := m_saved s; m_minBwForZoom := m_minBwForZoom s;
     m_currBw := m_currBw s; m_fixedFreqMode := m_fixedFreqMode s |}.

Definition step (s : PanoramicDialog) (e : Event)
    : option (PanoramicDialog * list Signal) :=
  match e with
  | EvRangeStart v => Some (rangeStartSpin_setValue v s)
  | EvRangeEnd v => Some (rangeEndSpin_setValue v s)
  | EvFullRange checked dev => Some (onFullRangeChanged checked dev s)
  | EvFeed a b d => s' ← feed s a b d; Some (s', [])
  | EvSetRunning r => Some (setRunning r s, [])
  | EvSetMinBwForZoom bw => Some (setMinBwForZoom bw s, [])
  | EvRelBw p => Some (set_relBwSlider p s, [])
  | EvWaterfall f => Some (set_waterfall (f <$> m_waterfall s) s, [])
  | EvNewZoomLevel => onNewZoomLevel s
  | EvNewFftCenterFreq freq => onNewFftCenterFreq s freq
  end.

(** A run of events, with the signals emitted in order. *)
Fixpoint run (s : PanoramicDialog) (es : list Event)
    : option (PanoramicDialog * list Signal) :=
  match es with
  | [] => Some (s, [])
  | e :: es' =>
      '(s1, out1) ← step s e;
      '(s2, out2) ← run s1 es';
      Some (s2, out1 ++ out2)
  end.

(** The events that edit the scan range. *)
Definition is_range_event (e : Event) : bool :=
  match e with
  | EvRangeStart _ | EvRangeEnd _ | EvFullRange _ _ => true
  | _ => false
  end.

(** The events that run the zoom slot: the waterfall reports a new zoom
    level after a change of its own, or after the reset that an edit of
    the range makes [adjustRanges] ask for. *)
Definition is_zoom (e : Event) : bool :=
  match e with
  | EvNewZoomLevel => true
  | _ => is_range_event e
  end.

End Dialog.

(** ** Suscan objects and the band-plan loader *)

(** A computation that may throw [Suscan::Exception]. *)
Inductive except (A : Type) : Type :=
| Return (a : A)
| Raise.
Arguments Return {A} a.
Arguments Raise {A}.

#[global] Instance except_ret : MRet except := fun A a => Return a.
#[global] Instance except_bind : MBind except := fun A B f c =>
  match c with
  | Return a => f a
  | Raise => Raise
  end.

(** [try { ... } catch (Suscan::Exception &) { }]: the value, if any. *)
Definition try_catch {A} (c : except A) : option A :=
  match c with
  | Return a => Some a
  | Raise => None
  end.

Inductive ObjectType :=
| SUSCAN_OBJECT_TYPE_OBJECT
| SUSCAN_OBJECT_TYPE_SET
| SUSCAN_OBJECT_TYPE_FIELD.

Definition is_set (t : ObjectType) : bool :=
  match t with SUSCAN_OBJECT_TYPE_SET => true | _ => false end.

(** The part of the [Suscan::Object] interface the loader calls.  The class
    is declared outside this file; the loader is written against it. *)
Class SuscanObject (Object : Type) := {
  getType : Object -> ObjectType;
  getField : Object -> string -> except Object;
  value : Object -> string;
  obj_length : Object -> nat;
  obj_at : Object -> nat -> except Object;
  get_float : Object -> string -> Q -> except Q;
  get_string : Object -> string -> string -> except string
}.

Record FrequencyBand := {
  band_min : qint64;
  band_max : qint64;
  band_primary : string;
  band_secondary : string;
  band_footnotes : string;
  band_color : string
}.

(** A [FrequencyAllocationTable] of the widget library: its name and the
    bands pushed so far, in order. *)
Record FrequencyAllocationTable := {
  fat_name : string;
  fat_bands : list FrequencyBand
}.

Module BandPlan.

Definition newTable (name : string) : FrequencyAllocationTable :=
  {| fat_name := name; fat_bands := [] |}.

Definition pushBand (b : FrequencyBand) (t : FrequencyAllocationTable)
    : FrequencyAllocationTable :=
  {| fat_name := fat_name t; fat_bands := fat_bands t ++ [b] |}.

Section Loader.
Context {Object : Type} `{SuscanObject Object}.

(** [PanoramicDialog::deserializeFrequencyBand]; the colour is kept as
    the name handed to [setNamedColor]. *)
Definition deserializeFrequencyBand (obj : Object) : except FrequencyBand :=
  mn ← get_float obj "min" 0%Q;
  mx ← get_float obj "max" 0%Q;
  primary ← get_string obj "primary" "";
  secondary ← get_string obj "secondary" "";
  footnotes ← get_string obj "footnotes" "";
  color ← get_string obj "color" "#1f1f1f";
  Return {| band_min := to_qint64 mn; band_max := to_qint64 mx;
            band_primary := primary; band_secondary := secondary;
            band_footnotes := footnotes; band_color := color |}.

(** The loop [for (i = 0; i < count; ++i)] of [deserializeFATs], with
    [n] iterations left: a band that throws is dropped by the empty
    [catch]. *)
Fixpoint load_bands (bands : Object) (i n ndx : nat)
    (fats : list (option FrequencyAllocationTable))
    : list (option FrequencyAllocationTable) :=
  match n with
  | O => fats
  | S n' =>
      let fats :=
        match try_catch (obj_at bands i ≫= deserializeFrequencyBand) with
        | Some band => alter (fmap (pushBand band)) ndx fats
        | None => fats
        end in
      load_bands bands (S i) n' ndx fats
  end.

(** The loop over the catalogue [getFirstFAT() .. getLastFAT()]; the
    second component tells whether an exception left the loop. *)
Fixpoint load_tables (catalog : list Object) (ndx : nat)
    (fats : list (option FrequencyAllocationTable))
    : list (option FrequencyAllocationTable) * bool :=
  match catalog with
  | [] => (fats, false)
  | p :: rest =>
      let fats := resize (ndx + 1) None fats in
      match getField p "name" with
      | Raise => (fats, true)
      | Return nameField =>
          let fats := <[ndx := Some (newTable (value nameField))]> fats in
          match getField p "bands" with
          | Raise => (fats, true)
          | Return bands =>
              (* SU_ATTEMPT(bands.getType() == SUSCAN_OBJECT_TYPE_SET) *)
              if negb (is_set (getType bands)) then (fats, true)
              else
                let count := obj_length bands in
                let fats := load_bands bands 0 count ndx fats in
                load_tables rest (ndx + 1) fats
          end
      end
  end.

(** The first block of [PanoramicDialog::deserializeFATs], which fills
    [m_FATs] once; the second block only lists the table names in a
    combo box. *)
Definition deserializeFATs (catalog : list Object)
    (m_FATs : list (option FrequencyAllocationTable))
    : list (option FrequencyAllocationTable) * bool :=
  if (length m_FATs =? 0)%nat then load_tables catalog 0 m_FATs
  else (m_FATs, false).

(** The bands of a set that deserialize without throwing, in order. *)
Definition good_bands (bands : Object) : list FrequencyBand :=
  omap (fun i => try_catch (obj_at bands i ≫= deserializeFrequencyBand))
       (seq 0 (obj_length bands)).

(** A catalogue entry whose own fields can be read: it has a name and a
    set of bands. *)
Definition table_of (p : Object) (name : string) (bands : Object) : Prop :=
  (exists nameField, getField p "name" = Return nameField
                     /\ value nameField = name)
  /\ getField p "bands" = Return bands
  /\ getType bands = SUSCAN_OBJECT_TYPE_SET.

End Loader.

End BandPlan.

(** ** A model of Suscan objects *)

Module ObjectModel.

(** A node is a field holding text, an object with named members, or a
    set of nodes. *)
#[warnings="-register-all"]
Inductive Object :=
| OField (text : string)
| OObject (members : list (string * Object))
| OSet (elems : list Object).

Fixpoint member (name : string) (l : list (string * Object)) : option Object :=
  match l with
  | [] => None
  | (k, v) :: l' => if String.eqb k name then Some v else member name l'
  end.

Definition m_getType (o : Object) : ObjectType :=
  match o with
  | OField _ => SUSCAN_OBJECT_TYPE_FIELD
  | OObject _ => SUSCAN_OBJECT_TYPE_OBJECT
  | OSet _ => SUSCAN_OBJECT_TYPE_SET
  end.

Definition m_getField (o : Object) (name : string) : except Object :=
  match o with
  | OObject ms =>
      match member name ms with
      | Some v => Return v
      | None => Raise
      end
  | _ => Raise
  end.

Definition m_value (o : Object) : string :=
  match o with OField t => t | _ => "" end.

Definition m_length (o : Object) : nat :=
  match o with OSet l => length l | _ => O end.

Definition m_at (o : Object) (i : nat) : except Object :=
  match o with
  | OSet l => match l !! i with Some x => Return x | None => Raise end
  | _ => Raise
  end.

(** A whole number written in decimal digits. *)
Definition parse_whole (t : string) : option Q :=
  match NilZero.int_of_string t with
  | Some d => Some (inject_Z (Z.of_int d))
  | None => None
  end.

(** Modelled from the spec: [Suscan::Object::get (name, default)] for a
    [float] is defined in Suscan/Object.cpp, which is missing here.  The
    spec has the loader parse a numeric [min] and [max] for each band and
    skip an entry that is malformed, one missing [min] for instance.  The
    loader skips an entry only when reading it throws, so the read of a
    number throws when the member is absent, is no field, or holds no
    number a [float] can take; a number that parses is read as the
    [float] nearest to it.  A receiver that is not an object has no
    members to read, and throws as well. *)
Definition m_get_float (o : Object) (name : string) (dfl : Q) : except Q :=
  match o with
  | OObject ms =>
      match member name ms with
      | Some (OField t) =>
          match parse_whole t with
          | Some q =>
              if Qle_bool (Qabs (to_float q)) FLT_MAX
              then Return (to_float q) else Raise
          | None => Raise
          end
      | _ => Raise
      end
  | _ => Raise
  end.

(** Modelled from the spec: the read of a text member, also defined in
    the missing Suscan/Object.cpp.  The spec gives the colour its default
    when it is absent: an absent text member yields the default handed to
    the call. *)
Definition m_get_string (o : Object) (name : string) (dfl : string)
    : except string :=
  match o with
  | OObject ms =>
      match member name ms with
      | Some (OField t) => Return t
      | _ => Return dfl
      end
  | _ => Raise
  end.

#[global] Instance model : SuscanObject Object := {
  getType := m_getType;
  getField := m_getField;
  value := m_value;
  obj_length := m_length;
  obj_at := m_at;
  get_float := m_get_float;
  get_string := m_get_string
}.

End ObjectModel.

(** ** Concrete data for the examples *)

Module Examples.
Import Dialog.

(** A waterfall showing [span] Hz around [center + fftCenter]. *)
Definition view (center fftCenter span : qint64) : Waterfall :=
  {| wf_freqUnits := 1; wf_spanFreq := span; wf_sampleRate := 100;
     wf_centerFreq := center; wf_fftCenterFreq := fftCenter;
     wf_filterOffset := 0; wf_partialFftData := [];
     wf_demodRanges := (0%Q, 0%Q, 0%Q, 0%Q, true);
     wf_lowCut := 0%Q; wf_hiCut := 0%Q; wf_runningState := true |}.

(** A running dialog scanning [lo .. hi] Hz, with a zoom threshold of
    [100 * 50 / 100 = 50] Hz and nothing saved yet. *)
Definition dialog (lo hi : SUFREQ) (w : option Waterfall) : PanoramicDialog :=
  {| ui_rangeStartSpin := lo; ui_rangeEndSpin := hi;
     ui_lnbDoubleSpinBox := 0%Q; ui_relBwSlider := 50;
     ui_exportButton := false; m_waterfall := w; m_running := true;
     m_frames := 0; m_freqStart := 0; m_freqEnd := 0; m_demodFreq := 0;
     m_saved := {| start := 0; end_ := 0; data := [] |};
     m_minBwForZoom := 100; m_currBw := 0; m_fixedFreqMode := false |}.

(** The same dialog after a frame of three samples. *)
Definition fed : PanoramicDialog :=
  Dialog.set_fixedFreqMode true
    (Dialog.set_saved
       {| start := 1000000; end_ := 2000000; data := [1%Q; 2%Q; 3%Q] |}
       (dialog 0%Q 100%Q (Some (view 50 0 100)))).

(** A dialog scanning [0 .. 1000] Hz whose waterfall shows 51 Hz at the
    left border, and the same dialog once the zoom slot has stored what it
    computed there. *)
Definition zoomed_in : PanoramicDialog :=
  dialog 0%Q 1000%Q (Some (view 500 (-490) 51)).

Definition zoomed_stored : PanoramicDialog :=
  Dialog.set_currBw 51 (Dialog.set_fixedFreqMode false zoomed_in).

(** The general format of a whole sample below [10 ^ precision] is its
    decimal digits; the examples use whole samples. *)
Definition show_whole (precision : nat) (x : SUFLOAT) : string :=
  show_qint64 (to_qint64 x).

Definition empty_fs : FileSystem := {| fs_files := ∅; fs_locked := ∅ |}.

Definition locked_fs : FileSystem :=
  {| fs_files := ∅; fs_locked := {["/spectrum.m"]} |}.

Import ObjectModel.

(** A band entry with every member, and one without [min]. *)
Definition band_full : Object :=
  OObject [("min", OField "100"); ("max", OField "200");
           ("primary", OField "FIXED")].

Definition band_no_min : Object :=
  OObject [("max", OField "300"); ("primary", OField "MOBILE")].

(** An entry that is no object at all. *)
Definition band_broken : Object := OField "oops".

Definition table (name : string) (bands : list Object) : Object :=
  OObject [("name", OField name); ("bands", OSet bands)].

End Examples.

(** ** Devices, gain controls and the scan button *)

(** A gain stage of a device: its name and the default the hardware
    reports. *)
Record GainDescription := {
  gd_name : string;
  gd_default : SUFLOAT
}.

(** A [Suscan::Source::Device] as the dialog reads it. *)
Record SourceDevice := {
  sd_device : Device;
  sd_desc : string;
  sd_available : bool;
  sd_gains : list GainDescription
}.

(** A [DeviceGain] control: its name and the gain it holds. *)
Record DeviceGain := {
  dg_name : string;
  dg_gain : SUFLOAT
}.

Inductive ControlSignal :=
| gainChanged (name : string) (val : SUFLOAT)
| scan_start
| scan_stop.

Module Controls.

(** [new DeviceGain (nullptr, desc)]; the gain is set right after. *)
Definition newDeviceGain (p : GainDescription) : DeviceGain :=
  {| dg_name := gd_name p; dg_gain := gd_default p |}.

Definition dg_setGain (v : SUFLOAT) (g : DeviceGain) : DeviceGain :=
  {| dg_name := dg_name g; dg_gain := v |}.

(** [PanoramicDialog::getGain]: the first control of that name, or [0]. *)
Fixpoint getGain (m_gainControls : list DeviceGain) (gain : string) : SUFLOAT :=
  match m_gainControls with
  | [] => 0%Q
  | p :: rest =>
      if String.eqb (dg_name p) gain then dg_gain p else getGain rest gain
  end.

(** [PanoramicDialog::lookupGain]: the first control of that name, or
    [nullptr]. *)
Fixpoint lookupGain (m_gainControls : list DeviceGain) (name : string)
    : option DeviceGain :=
  match m_gainControls with
  | [] => None
  | p :: rest =>
      if String.eqb (dg_name p) name then Some p else lookupGain rest name
  end.

(** [PanoramicDialog::clearGains], on the list of controls. *)
Definition clearGains (m_gainControls : list DeviceGain) : list DeviceGain :=
  if (length m_gainControls =? 0)%nat then m_gainControls else [].

(** The loop of [PanoramicDialog::refreshGains] over the gains of the
    device; the control is the one just pushed, so setting its gain sets
    the one in the list. *)
Fixpoint refreshGains_loop (cfg : PanoramicDialogConfig) (driver : string)
    (descs : list GainDescription) (m_gainControls : list DeviceGain)
    : list DeviceGain :=
  match descs with
  | [] => m_gainControls
  | p :: rest =>
      let gain := newDeviceGain p in
      let gain :=
        if Config.hasGain cfg driver (gd_name p)
        then dg_setGain (Config.getGain cfg driver (gd_name p)) gain
        else dg_setGain (gd_default p) gain in
      refreshGains_loop cfg driver rest (m_gainControls ++ [gain])
  end.

(** [PanoramicDialog::refreshGains] *)
Definition refreshGains (cfg : PanoramicDialogConfig) (device : SourceDevice)
    (m_gainControls : list DeviceGain) : list DeviceGain :=
  refreshGains_loop cfg (dev_driver (sd_device device)) (sd_gains device)
    (clearGains m_gainControls).

(** [PanoramicDialog::onGainChanged]; [selected] is the outcome of
    [getSelectedDevice]. *)
Definition onGainChanged (selected : option SourceDevice)
    (cfg : PanoramicDialogConfig) (name : string) (val : SUFLOAT)
    : PanoramicDialogConfig * list ControlSignal :=
  let cfg :=
    match selected with
    | Some dev => Config.setGain cfg (dev_driver (sd_device dev)) name val
    | None => cfg
    end in
  (cfg, [gainChanged name val]).

(** The loop of [PanoramicDialog::populateDeviceCombo] over the devices:
    the combo box items and [m_deviceMap].  The function clears both, runs
    the loop, and then calls [onDeviceChanged] when the map is not
    empty. *)
Fixpoint populateDeviceCombo_loop (devices : list SourceDevice)
    (combo : list string) (m_deviceMap : gmap string SourceDevice)
    : list string * gmap string SourceDevice :=
  match devices with
  | [] => (combo, m_deviceMap)
  | i :: rest =>
      if Dialog.Qgt_bool (dev_maxFreq (sd_device i)) 0 && sd_available i
      then populateDeviceCombo_loop rest (combo ++ [sd_desc i])
             (<[sd_desc i := i]> m_deviceMap)
      else populateDeviceCombo_loop rest combo m_deviceMap
  end.

Definition populateDeviceCombo (devices : list SourceDevice)
    : list string * gmap string SourceDevice :=
  populateDeviceCombo_loop devices [] ∅.

(** [PanoramicDialog::getSelectedDevice], for the current text of the
    combo box. *)
Definition getSelectedDevice (currentText : string)
    (m_deviceMap : gmap string SourceDevice) : option SourceDevice :=
  m_deviceMap !! currentText.

(** [PanoramicDialog::preferredRttMs] *)
Definition preferredRttMs (dev : SourceDevice) : Z :=
  if String.eqb (dev_driver (sd_device dev)) "rtlsdr" then 5
  else if String.eqb (dev_driver (sd_device dev)) "airspy" then 16
  else if String.eqb (dev_driver (sd_device dev)) "hackrf" then 10
  else if String.eqb (dev_driver (sd_device dev)) "uhd" then 2
  else 0.

(** [PanoramicDialog::onToggleScan]: [selectedDesc] is the description of
    the device [getSelectedDevice] left in [dev].  The result is the state
    of the scan button, its text, the waterfall and the signals emitted. *)
Definition onToggleScan (scanChecked : bool) (selectedDesc : string)
    (m_bannedDevice : string) (w : option Waterfall)
    : bool * string * option Waterfall * list ControlSignal :=
  let '(checked, w, out) :=
    if scanChecked then
      if (0 <? String.length m_bannedDevice)%nat
         && String.eqb selectedDesc m_bannedDevice
      then (false, w, [])
      else (scanChecked, WaterfallOps.clearPartialFftData <$> w, [scan_start])
    else (scanChecked, w, [scan_stop]) in
  (checked, if checked then "Stop" else "Start scan", w, out).

End Controls.

(** ** The gain fields of a stored configuration *)

(** The two calls [PanoramicDialogConfig::deserialize] makes to walk the
    fields of an object: [getFieldCount ()] and
    [getFieldByIndex (i).name ()]. *)
Class SuscanFieldList (Object : Type) := {
  getFieldCount : Object -> nat;
  fieldName : Object -> nat -> string
}.

Module ConfigIO.

Section Deserialize.
Context {Object : Type} `{SuscanObject Object} `{SuscanFieldList Object}.

(** The loop of [PanoramicDialogConfig::deserialize] over the fields, with
    [n] iterations left: a field whose name starts with ["gain."] is read
    with [0] as the default and stored under its own name. *)
Fixpoint deserialize_gains (conf : Object) (i n : nat)
    (gains : gmap string SUFLOAT) : except (gmap string SUFLOAT) :=
  match n with
  | O => Return gains
  | S n' =>
      if String.eqb (substring 0 5 (fieldName conf i)) "gain."
      then
        v ← get_float conf (fieldName conf i) 0%Q;
        deserialize_gains conf (S i) n' (<[fieldName conf i := v]> gains)
      else deserialize_gains conf (S i) n' gains
  end.

(** The gain part of [PanoramicDialogConfig::deserialize]. *)
Definition deserialize (conf : Object) (c : PanoramicDialogConfig)
    : except PanoramicDialogConfig :=
  g ← deserialize_gains conf 0 (getFieldCount conf) (gains c);
  Return {| gains := g |}.

(** The names of the gain fields of an object. *)
Definition gain_fields (conf : Object) : list string :=
  filter (fun name => substring 0 5 name = "gain.")
         (map (fieldName conf) (seq 0 (getFieldCount conf))).

End Deserialize.

End ConfigIO.

(** The fields of an object of the model, in order. *)
#[global] Instance model_fields : SuscanFieldList ObjectModel.Object := {
  getFieldCount o :=
    match o with ObjectModel.OObject ms => length ms | _ => O end;
  fieldName o i :=
    match o with
    | ObjectModel.OObject ms =>
        match ms !! i with Some (k, _) => k | None => "" end
    | _ => ""
    end
}.

(** ** The band-plan combo box *)

(** What [onBandPlanChanged] asks of the waterfall. *)
Inductive FatCall :=
| removeFAT (name : string)
| setFATsVisible (visible : bool)
| pushFAT (t : FrequencyAllocationTable).

Module BandPlanUi.

(** [QComboBox::insertItem (index, ...)]: the item goes in front of the
    one at [index], or last when there is none. *)
Definition insertItem {A} (index : nat) (x : A) (l : list A) : list A :=
  take index l ++ x :: drop index l.

(** The loop of the second block of [deserializeFATs]: one item per table,
    with the index of the table as its data.  A null table has no name to
    read. *)
Fixpoint combo_tables (tables : list (option FrequencyAllocationTable))
    (i : nat) (combo : list (string * Z)) : option (list (string * Z)) :=
  match tables with
  | [] => Some combo
  | None :: _ => None
  | Some t :: rest =>
      combo_tables rest (S i) (insertItem (S i) (fat_name t, Z.of_nat i) combo)
  end.

(** The second block of [PanoramicDialog::deserializeFATs]. *)
Definition populateAllocationCombo
    (m_FATs : list (option FrequencyAllocationTable))
    (combo : list (string * Z)) : option (list (string * Z)) :=
  if (length combo =? 0)%nat
  then combo_tables m_FATs 0 (insertItem 0 ("(No bandplan)", -1) combo)
  else Some combo.

(** [PanoramicDialog::onBandPlanChanged] for the data [val] of the current
    item: the new [m_currentFAT] and the calls made on the waterfall.  An
    index outside [m_FATs], or a null table, has no result. *)
Definition onBandPlanChanged (val : Z)
    (m_FATs : list (option FrequencyAllocationTable)) (m_currentFAT : string)
    (hasWaterfall : bool) : option (string * list FatCall) :=
  if negb hasWaterfall then Some (m_currentFAT, [])
  else
    let calls :=
      if (0 <? String.length m_currentFAT)%nat
      then [removeFAT m_currentFAT] else [] in
    if 0 <=? val then
      match m_FATs !! Z.to_nat val with
      | Some (Some t) =>
          Some (fat_name t, calls ++ [setFATsVisible true; pushFAT t])
      | _ => None
      end
    else Some ("", calls ++ [setFATsVisible false]).

End BandPlanUi.

(** ** More concrete data *)

Module Scenarios.

Definition hackrf : SourceDevice :=
  {| sd_device := {| dev_driver := "hackrf"; dev_minFreq := 1000000%Q;
                     dev_maxFreq := 6000000000%Q |};
     sd_desc := "HackRF One"; sd_available := true;
     sd_gains := [ {| gd_name := "LNA"; gd_default := 16%Q |};
                   {| gd_name := "VGA"; gd_default := 20%Q |} ] |}.

Definition stored_conf : ObjectModel.Object :=
  ObjectModel.OObject
    [ ("fullRange", ObjectModel.OField "1");
      ("gain.hackrf.LNA", ObjectModel.OField "14");
      ("gain.hackrf.VGA", ObjectModel.OField "30") ].

Definition itu : FrequencyAllocationTable :=
  {| fat_name := "ITU"; fat_bands := [] |}.

Definition local_plan : FrequencyAllocationTable :=
  {| fat_name := "Local"; fat_bands := [] |}.

End Scenarios.

(** * Properties *)

(** ** Casts and comparisons *)

Lemma to_qint64_inject (z : Z) : to_qint64 (inject_Z z) = z.
Proof. unfold to_qint64, inject_Z. simpl. apply Z.quot_1_r. Qed.

Lemma Qle_bool_inject (a b : Z) :
  Qle_bool (inject_Z a) (inject_Z b) = (a <=? b).
Proof.
  apply eq_true_iff_eq. rewrite Qle_bool_iff, Z.leb_le, <- Zle_Qle. reflexivity.
Qed.

Lemma quot2_even (z : Z) : Z.even z = true -> 2 * (z ÷ 2) = z.
Proof.
  intros He. apply Z.even_spec in He. destruct He as [k ->].
  Z.to_euclidean_division_equations. lia.
Qed.

Lemma quot2_bounds (z : Z) : 0 <= z -> z - 1 <= 2 * (z ÷ 2) <= z.
Proof. intros Hz. Z.to_euclidean_division_equations. lia. Qed.

Lemma wrap_qint64_id (z : Z) : in_qint64 z -> wrap_qint64 z = z.
Proof.
  unfold in_qint64, wrap_qint64.
  change (2 ^ 63) with 9223372036854775808.
  change (2 ^ 64) with 18446744073709551616.
  intros Hz. rewrite Z.mod_small by lia. lia.
Qed.

(** Single precision at work: a small whole number is a [float]; 0.1 and
    0.53 are not, and become the nearest one; from [2 ^ 24] on only every
    second whole number is one, a tie going to the even significand; and
    below the least exponent the steps are [2 ^ -149] wide. *)
Example to_float_values :
  to_float 14 = 14%Q
  /\ to_float (- 14) = (- 14)%Q
  /\ (to_float (1 # 10) == 13421773 # 134217728)%Q
  /\ (to_float (53 # 100) == 8891924 # 16777216)%Q
  /\ to_float 16777217 = 16777216%Q
  /\ to_float 16777219 = 16777220%Q
  /\ to_float 20000001 = 20000000%Q
  /\ to_float (- 16777217) = (- 16777216)%Q
  /\ to_float (pow2 (- 149)) = pow2 (- 149)
  /\ to_float (3 * pow2 (- 150)) = pow2 (- 148)
  /\ to_float (pow2 (- 150)) = 0%Q
  /\ to_float FLT_MAX = FLT_MAX.
Proof.
  split; [reflexivity|]. split; [reflexivity|]. split; [reflexivity|].
  split; [reflexivity|]. split; [reflexivity|]. split; [reflexivity|].
  split; [reflexivity|]. split; [reflexivity|]. split; [vm_compute; reflexivity|].
  split; [vm_compute; reflexivity|]. split; [vm_compute; reflexivity|].
  vm_compute. reflexivity.
Qed.

Lemma round_even_comp (x y : Q) : (x == y)%Q -> round_even x = round_even y.
Proof.
  intros E. unfold round_even.
  rewrite (Qfloor_comp x y E).
  assert (x - inject_Z (Qfloor y) == y - inject_Z (Qfloor y))%Q as E'
    by (rewrite E; reflexivity).
  rewrite (Qcompare_comp _ _ E' (1 # 2) (1 # 2) (Qeq_refl _)).
  reflexivity.
Qed.

Lemma round_even_whole (n : Z) : round_even (inject_Z n) = n.
Proof.
  unfold round_even. rewrite Qfloor_Z.
  assert (inject_Z n - inject_Z n == 0)%Q as E by ring.
  rewrite (Qcompare_comp _ _ E (1 # 2) (1 # 2) (Qeq_refl _)).
  reflexivity.
Qed.

Lemma ilog2_whole (z : Z) : 0 < z -> ilog2 (inject_Z z) = Z.log2 z.
Proof.
  intros Hz. unfold ilog2. cbn [Qnum Qden inject_Z].
  change (Z.log2 1) with 0. rewrite Z.sub_0_r.
  unfold pow2.
  destruct (Z.leb_spec 0 (Z.log2 z)) as [_|Hn];
    [|pose proof (Z.log2_nonneg z); lia].
  rewrite Qle_bool_inject.
  destruct (Z.leb_spec (2 ^ Z.log2 z) z) as [_|Hn]; [reflexivity|].
  pose proof (Z.log2_spec z Hz). lia.
Qed.

(** A whole number of at most 24 bits is a multiple of the unit in the
    last place of its own binade. *)
Lemma whole_significand (a : Z) :
  0 < a <= 2 ^ 24 ->
  exists n, (inject_Z a / pow2 (Z.log2 a - 23) == inject_Z n)%Q
            /\ (inject_Z n * pow2 (Z.log2 a - 23) == inject_Z a)%Q.
Proof.
  intros [Hpos Hle].
  pose proof (Z.log2_spec a Hpos) as [Hlo Hhi].
  pose proof (Z.log2_nonneg a) as H0.
  assert (Z.log2 a <= 24) as H24.
  { destruct (Z.le_gt_cases (Z.log2 a) 24) as [H|H]; [exact H|].
    exfalso. assert (2 ^ 25 <= 2 ^ Z.log2 a)
      by (apply Z.pow_le_mono_r; lia).
    change (2 ^ 25) with 33554432 in *. change (2 ^ 24) with 16777216 in *.
    lia. }
  unfold pow2.
  destruct (Z.leb_spec 0 (Z.log2 a - 23)) as [Hk|Hk].
  - assert (Z.log2 a = 23 \/ Z.log2 a = 24) as [E|E] by lia.
    + rewrite E. exists a. change (2 ^ (23 - 23)) with 1.
      split; [field|ring].
    + assert (a = 2 ^ 24) as ->.
      { rewrite E in Hlo. lia. }
      exists (2 ^ 23). rewrite E. split; reflexivity.
  - exists (a * 2 ^ (- (Z.log2 a - 23))).
    assert (0 < 2 ^ (- (Z.log2 a - 23))) as Hp
      by (apply Z.pow_pos_nonneg; lia).
    set (p := 2 ^ (- (Z.log2 a - 23))) in *.
    assert (~ inject_Z p == 0)%Q as Hnz.
    { intros E. apply (Qlt_irrefl 0). rewrite <- E at 2.
      change 0%Q with (inject_Z 0). rewrite <- Zlt_Qlt. exact Hp. }
    rewrite inject_Z_mult. split; field; exact Hnz.
Qed.

(** A whole number of at most 24 bits is a [float]: the slider position
    and small frequencies are converted exactly. *)
Lemma to_float_whole (z : Z) :
  Z.abs z <= 2 ^ 24 -> (to_float (inject_Z z) == inject_Z z)%Q.
Proof.
  intros Hz. unfold to_float.
  destruct (Qeq_bool (inject_Z z) 0) eqn:E0.
  { apply Qeq_bool_iff in E0. rewrite E0. reflexivity. }
  assert (z <> 0) as Hnz.
  { intros ->. discriminate E0. }
  change (Qabs (inject_Z z)) with (inject_Z (Z.abs z)).
  assert (0 < Z.abs z <= 2 ^ 24) as Ha by lia.
  rewrite (ilog2_whole _ (proj1 Ha)).
  pose proof (Z.log2_nonneg (Z.abs z)) as H0.
  rewrite Z.max_l by lia.
  destruct (whole_significand (Z.abs z) Ha) as (n & En & Eb).
  rewrite (round_even_comp _ _ En), round_even_whole.
  change 0%Q with (inject_Z 0). rewrite Qle_bool_inject.
  destruct (Z.leb_spec 0 z) as [Hp|Hn]; rewrite Qred_correct, Eb.
  - rewrite Z.abs_eq by lia. reflexivity.
  - rewrite Z.abs_neq by lia. rewrite inject_Z_opp. ring.
Qed.

Lemma Qgt_bool_true (a b : Q) : Dialog.Qgt_bool a b = true <-> (b < a)%Q.
Proof.
  unfold Dialog.Qgt_bool. rewrite negb_true_iff.
  split.
  - intros Hf. apply Qnot_le_lt. intros Hle.
    apply Qle_bool_iff in Hle. congruence.
  - intros Hlt. destruct (Qle_bool a b) eqn:E; [|reflexivity].
    apply Qle_bool_iff in E. exfalso. exact (Qlt_not_le _ _ Hlt E).
Qed.

Lemma Qgt_bool_false (a b : Q) : Dialog.Qgt_bool a b = false <-> (a <= b)%Q.
Proof.
  unfold Dialog.Qgt_bool. rewrite negb_false_iff. apply Qle_bool_iff.
Qed.

(** ** The zoom window *)

Section ZoomWindow.
Import Dialog.




End ZoomWindow.

(** ** Frames and the saved spectrum *)

Section Frames.
Import Dialog.

Lemma feed_defined (s : PanoramicDialog) (w : Waterfall) (a b : qint64)
    (d : list SUFLOAT) :
  m_waterfall s = Some w ->
  exists s', feed s a b d = Some s'.
Proof.
  intros Hw. unfold feed, redrawMeasures.
  destruct (negb (m_freqStart s =? a) || negb (m_freqEnd s =? b));
    cbn; rewrite Hw; cbn; eexists; reflexivity.
Qed.

Lemma feed_null_waterfall (s : PanoramicDialog) (a b : qint64)
    (d : list SUFLOAT) :
  m_waterfall s = None -> feed s a b d = None.
Proof.
  intros Hw. unfold feed.
  destruct (negb (m_freqStart s =? a) || negb (m_freqEnd s =? b));
    cbn; rewrite Hw; reflexivity.
Qed.

(** What a frame leaves alone. *)
Lemma feed_frame (s s' : PanoramicDialog) (a b : qint64) (d : list SUFLOAT) :
  feed s a b d = Some s' ->
  m_fixedFreqMode s' = m_fixedFreqMode s
  /\ m_currBw s' = m_currBw s
  /\ m_running s' = m_running s
  /\ ui_rangeStartSpin s' = ui_rangeStartSpin s
  /\ ui_rangeEndSpin s' = ui_rangeEndSpin s.
Proof.
  unfold feed, redrawMeasures.
  destruct (m_waterfall s) as [w|] eqn:Hw;
    destruct (negb (m_freqStart s =? a) || negb (m_freqEnd s =? b));
    cbn; rewrite Hw; cbn; intros Hs; inversion Hs; subst; cbn; auto.
Qed.

(** Everything a frame writes. *)
Lemma feed_effect (s : PanoramicDialog) (w : Waterfall)
    (a b : qint64) (d : list SUFLOAT) :
  m_waterfall s = Some w ->
  exists s',
    feed s a b d = Some s'
    /\ m_saved s' = {| start := a; end_ := b; data := d |}
    /\ m_freqStart s' = a /\ m_freqEnd s' = b
    /\ m_frames s' = m_frames s + 1
    /\ ui_exportButton s' = true
    /\ m_waterfall s'
       = Some (WaterfallOps.setNewPartialFftData d a b w).
Proof.
  intros Hw. unfold feed, redrawMeasures.
  destruct (negb (m_freqStart s =? a) || negb (m_freqEnd s =? b)) eqn:Hc;
    cbn; rewrite Hw; cbn; eexists; (split; [reflexivity|]); cbn;
    repeat split; try reflexivity.
  - apply orb_false_iff in Hc. destruct Hc as [Hc _].
    apply negb_false_iff, Z.eqb_eq in Hc. exact Hc.
  - apply orb_false_iff in Hc. destruct Hc as [_ Hc].
    apply negb_false_iff, Z.eqb_eq in Hc. exact Hc.
Qed.

(** C2, as amended.  [feed] checks nothing and signals nothing: whatever
    [start], [end] and samples it is given, the saved spectrum becomes
    exactly that frame, the last window is [start .. end], the frame
    counter advances by one and the export button is enabled. *)
Theorem feed_replaces_snapshot (s : PanoramicDialog) (w : Waterfall)
    (a b : qint64) (d : list SUFLOAT) :
  m_waterfall s = Some w ->
  exists s',
    feed s a b d = Some s'
    /\ m_saved s' = {| start := a; end_ := b; data := d |}
    /\ m_freqStart s' = a /\ m_freqEnd s' = b
    /\ m_frames s' = m_frames s + 1
    /\ ui_exportButton s' = true.
Proof.
  intros Hw.
  destruct (feed_effect s w a b d Hw) as (s' & Hf & Hs & Ha & Hb & Hn & He & _).
  exists s'. repeat split; assumption.
Qed.

Lemma feed_replaces_snapshot_witness :
  exists s',
    feed Examples.fed 7 9 [4%Q] = Some s'
    /\ m_saved s' = {| start := 7; end_ := 9; data := [4%Q] |}
    /\ m_freqStart s' = 7 /\ m_freqEnd s' = 9
    /\ m_frames s' = m_frames Examples.fed + 1
    /\ ui_exportButton s' = true.
Proof.
  apply (feed_replaces_snapshot Examples.fed (Examples.view 50 0 100)).
  reflexivity.
Defined.

(** A frame with [start = end] and no samples is taken like any other: it
    overwrites the frame saved before it. *)
Lemma feed_invalid_frame_counterexample :
  exists s',
    feed Examples.fed 5 5 [] = Some s'
    /\ m_saved Examples.fed
       = {| start := 1000000; end_ := 2000000; data := [1%Q; 2%Q; 3%Q] |}
    /\ m_saved s' = {| start := 5; end_ := 5; data := [] |}
    /\ m_saved s' <> m_saved Examples.fed.
Proof.
  eexists. split; [reflexivity|]. split; [reflexivity|].
  split; [reflexivity|]. cbn. discriminate.
Qed.

End Frames.

(** ** Export *)

Lemma string_app_assoc (a b c : string) : (a +:+ b) +:+ c = a +:+ (b +:+ c).
Proof.
  induction a as [|x a IH]; [reflexivity|].
  change (String x ((a +:+ b) +:+ c) = String x (a +:+ (b +:+ c))).
  f_equal. exact IH.
Qed.

Section ExportFacts.
Import SavedSpectrumOps Dialog.
Variable show_float : nat -> SUFLOAT -> string.

Lemma put_samples_precision (l : list SUFLOAT) (o : ofstream) :
  of_precision (put_samples show_float l o) = of_precision o.
Proof.
  revert o. induction l as [|x l IH]; intros o; cbn; [reflexivity|].
  rewrite IH. reflexivity.
Qed.

(** The loop leaves a space after every sample, so that a list that is
    not empty reads as its samples separated by spaces, and one more
    space. *)
Lemma put_samples_text (l : list SUFLOAT) (o : ofstream) :
  l <> [] ->
  of_text (put_samples show_float l o)
  = of_text o
    +:+ String.concat " " (map (show_float (of_precision o)) l) +:+ " ".
Proof.
  revert o. induction l as [|x l IH]; intros o Hne; [congruence|].
  destruct l as [|y l].
  - cbn. rewrite string_app_assoc. reflexivity.
  - change (put_samples show_float (x :: y :: l) o)
      with (put_samples show_float (y :: l) (put " " (put_float show_float x o))).
    rewrite IH by discriminate.
    cbn [put put_float of_text of_precision map String.concat].
    rewrite !string_app_assoc. reflexivity.
Qed.

Lemma export_stream_nonempty (sp : SavedSpectrum) :
  data sp <> [] ->
  of_text (export_stream show_float sp)
  = export_text show_float (start sp) (end_ sp) (data sp).
Proof.
  intros Hne. unfold export_stream, export_text.
  cbn [put of_text of_precision setprecision].
  rewrite put_samples_text by exact Hne.
  cbn [put of_text of_precision setprecision of_open].
  rewrite !string_app_assoc. reflexivity.
Qed.

Lemma exportToFile_locked (sp : SavedSpectrum) (path : string) (fs : FileSystem) :
  can_open fs path = false ->
  exportToFile show_float sp path fs = (false, fs).
Proof. intros Hc. unfold exportToFile. rewrite Hc. reflexivity. Qed.

(** C5.  After [feed start end samples] with at least one sample, exporting
    to a path that opens returns [true] and leaves in the file exactly the
    comment header, [freqMin = start;], [freqMax = end;] and
    [PSD = [ v1 ... vn ];] with the samples in order at the precision of
    [float]; exporting to a path that does not open returns [false] and
    writes nothing. *)
Theorem exportToFile_after_feed (s : PanoramicDialog) (w : Waterfall)
    (a b : qint64) (d : list SUFLOAT) (path : string) (fs : FileSystem) :
  m_waterfall s = Some w ->
  d <> [] ->
  exists s',
    feed s a b d = Some s'
    /\ (can_open fs path = true ->
        exportToFile show_float (m_saved s') path fs
        = (true, write_file fs path (export_text show_float a b d))
        /\ fs_files (snd (exportToFile show_float (m_saved s') path fs)) !! path
           = Some (export_text show_float a b d))
    /\ (can_open fs path = false ->
        exportToFile show_float (m_saved s') path fs = (false, fs)).
Proof.
  intros Hw Hd.
  destruct (feed_effect s w a b d Hw) as (s' & Hf & Hs & _).
  exists s'. split; [exact Hf|]. split.
  - intros Hc.
    assert (exportToFile show_float (m_saved s') path fs
            = (true, write_file fs path (export_text show_float a b d))) as He.
    { unfold exportToFile. rewrite Hc. cbn [negb].
      rewrite export_stream_nonempty by (rewrite Hs; exact Hd).
      rewrite Hs. reflexivity. }
    split; [exact He|]. rewrite He. cbn. apply lookup_insert_eq.
  - apply exportToFile_locked.
Qed.

(** C4, as amended.  [exportToFile] has no check for an empty spectrum:
    with no samples and a path that opens it returns [true] and writes the
    header, the two frequency lines and [PSD = [ ];]. *)
Theorem exportToFile_empty (sp : SavedSpectrum) (path : string)
    (fs : FileSystem) :
  data sp = [] ->
  can_open fs path = true ->
  exportToFile show_float sp path fs
  = (true,
     write_file fs path
       ("%" +:+ nl
        +:+ "% Panoramic Spectrum file generated by SigDigger" +:+ nl
        +:+ "%" +:+ nl
        +:+ nl
        +:+ "freqMin = " +:+ show_qint64 (start sp) +:+ ";" +:+ nl
        +:+ "freqMax = " +:+ show_qint64 (end_ sp) +:+ ";" +:+ nl
        +:+ "PSD = [ ];" +:+ nl)).
Proof.
  intros Hd Hc. unfold exportToFile, export_stream. rewrite Hc, Hd.
  cbn [negb put_samples put of_text of_precision setprecision of_open].
  rewrite !string_app_assoc. reflexivity.
Qed.

(** [onExport] asks again after every path that does not open and stops
    at the first one that does, or when the dialog is dismissed. *)
Lemma onExport_first_writable (s : PanoramicDialog) (path : string)
    (rest : list (option string)) (fs : FileSystem) :
  can_open fs path = true ->
  onExport show_float (Some path :: rest) s fs
  = (write_file fs path (of_text (export_stream show_float (m_saved s))), O).
Proof. intros Hc. cbn. unfold exportToFile. rewrite Hc. reflexivity. Qed.

Lemma onExport_retry (s : PanoramicDialog) (path : string)
    (rest : list (option string)) (fs : FileSystem) :
  can_open fs path = false ->
  onExport show_float (Some path :: rest) s fs
  = (fst (onExport show_float rest s fs),
     S (snd (onExport show_float rest s fs))).
Proof.
  intros Hc. cbn. unfold exportToFile. rewrite Hc. cbn.
  destruct (onExport show_float rest s fs). reflexivity.
Qed.

End ExportFacts.

Lemma exportToFile_after_feed_witness :
  exists s',
    Dialog.feed (Examples.dialog 0%Q 100%Q (Some (Examples.view 50 0 100)))
      1000000 2000000 [1%Q; 2%Q; 3%Q] = Some s'
    /\ SavedSpectrumOps.exportToFile Examples.show_whole (m_saved s')
         "/spectrum.m" Examples.empty_fs
       = (true,
          write_file Examples.empty_fs "/spectrum.m"
            ("%" +:+ nl
             +:+ "% Panoramic Spectrum file generated by SigDigger" +:+ nl
             +:+ "%" +:+ nl +:+ nl
             +:+ "freqMin = 1000000;" +:+ nl
             +:+ "freqMax = 2000000;" +:+ nl
             +:+ "PSD = [ 1 2 3 ];" +:+ nl))
    /\ SavedSpectrumOps.exportToFile Examples.show_whole (m_saved s')
         "/spectrum.m" Examples.locked_fs
       = (false, Examples.locked_fs).
Proof.
  destruct (exportToFile_after_feed Examples.show_whole
              (Examples.dialog 0%Q 100%Q (Some (Examples.view 50 0 100)))
              (Examples.view 50 0 100) 1000000 2000000 [1%Q; 2%Q; 3%Q]
              "/spectrum.m" Examples.empty_fs eq_refl)
    as (s' & Hf & Hopen & _); [discriminate|].
  exists s'. split; [exact Hf|]. split.
  - exact (proj1 (Hopen eq_refl)).
  - apply exportToFile_locked. reflexivity.
Defined.

Lemma exportToFile_empty_witness :
  SavedSpectrumOps.exportToFile Examples.show_whole
    (m_saved (Examples.dialog 0%Q 100%Q None)) "/spectrum.m" Examples.empty_fs
  = (true,
     write_file Examples.empty_fs "/spectrum.m"
       ("%" +:+ nl
        +:+ "% Panoramic Spectrum file generated by SigDigger" +:+ nl
        +:+ "%" +:+ nl +:+ nl
        +:+ "freqMin = 0;" +:+ nl
        +:+ "freqMax = 0;" +:+ nl
        +:+ "PSD = [ ];" +:+ nl)).
Proof.
  exact (exportToFile_empty Examples.show_whole
           (m_saved (Examples.dialog 0%Q 100%Q None)) "/spectrum.m"
           Examples.empty_fs eq_refl eq_refl).
Defined.

(** With nothing ever fed, the export still reports success and creates
    the file: there is no refusal for an empty spectrum. *)
Lemma export_empty_counterexample :
  data (m_saved (Examples.dialog 0%Q 100%Q None)) = []
  /\ fst (SavedSpectrumOps.exportToFile Examples.show_whole
            (m_saved (Examples.dialog 0%Q 100%Q None)) "/spectrum.m"
            Examples.empty_fs) = true
  /\ is_Some (fs_files
                (snd (SavedSpectrumOps.exportToFile Examples.show_whole
                        (m_saved (Examples.dialog 0%Q 100%Q None))
                        "/spectrum.m" Examples.empty_fs)) !! "/spectrum.m")
  /\ fst (Dialog.onExport Examples.show_whole [Some "/spectrum.m"]
            (Examples.dialog 0%Q 100%Q None) Examples.empty_fs)
     = write_file Examples.empty_fs "/spectrum.m"
         ("%" +:+ nl
          +:+ "% Panoramic Spectrum file generated by SigDigger" +:+ nl
          +:+ "%" +:+ nl +:+ nl
          +:+ "freqMin = 0;" +:+ nl
          +:+ "freqMax = 0;" +:+ nl
          +:+ "PSD = [ ];" +:+ nl).
Proof.
  split; [reflexivity|]. split; [reflexivity|]. split; [|reflexivity].
  vm_compute. eexists; reflexivity.
Qed.

(** ** The scan range *)

(** Halving after the cap at 4 GHz is the cap at 2 GHz after halving. *)
Lemma capped_half (x : Q) :
  let c := if Dialog.Qgt_bool x 4000000000 then 4000000000%Q else x in
  (c / 2 == Qmin (x / 2) 2000000000)%Q
  /\ (c / 2 == Qmin x 4000000000 / 2)%Q
  /\ (- c / 2 == - (c / 2))%Q.
Proof.
  cbv zeta. destruct (Dialog.Qgt_bool x 4000000000) eqn:Hc.
  - apply Qgt_bool_true in Hc.
    assert (E1 : (Qmin (x / 2) 2000000000 == 2000000000)%Q).
    { apply Q.min_r. apply Qle_shift_div_l; [reflexivity|]. lra. }
    assert (E2 : (Qmin x 4000000000 == 4000000000)%Q)
      by (apply Q.min_r; lra).
    split; [|split]; [rewrite E1|rewrite E2|]; reflexivity.
  - apply Qgt_bool_false in Hc.
    assert (E1 : (Qmin (x / 2) 2000000000 == x / 2)%Q).
    { apply Q.min_l. apply Qle_shift_div_r; [reflexivity|]. lra. }
    assert (E2 : (Qmin x 4000000000 == x)%Q)
      by (apply Q.min_l; lra).
    split; [|split]; [rewrite E1; reflexivity|rewrite E2; reflexivity|field].
Qed.

Section RangeFacts.
Import Dialog WaterfallOps.

(** [getZoomRange] reads the range, the threshold and the view. *)
Lemma getZoomRange_reads (s : PanoramicDialog) (w : Waterfall) :
  m_waterfall s = Some w ->
  getZoomRange s
  = Some (zoomWindow (getMinFreq s) (getMaxFreq s) (m_minBwForZoom s)
            (getRelBw s) (wf_centerFreq w + wf_fftCenterFreq w)
            (wf_spanFreq w)).
Proof.
  intros Hw. unfold getZoomRange, zoomWindow. rewrite Hw.
  cbn [mbind option_bind].
  destruct (Qle_bool (of_qint64 (wf_centerFreq w + wf_fftCenterFreq w
                                 - wf_spanFreq w ÷ 2)) (getMinFreq s));
    destruct (Qle_bool (getMaxFreq s)
                (of_qint64 (wf_centerFreq w + wf_fftCenterFreq w
                            + wf_spanFreq w ÷ 2)));
    reflexivity.
Qed.

Lemma onNewZoomLevel_reads (s : PanoramicDialog) (w : Waterfall) :
  m_waterfall s = Some w ->
  onNewZoomLevel s
  = Some (let '(min, max, noHop) :=
            zoomWindow (getMinFreq s) (getMaxFreq s) (m_minBwForZoom s)
              (getRelBw s) (wf_centerFreq w + wf_fftCenterFreq w)
              (wf_spanFreq w) in
          (set_currBw (max - min) (set_fixedFreqMode noHop s),
           if m_running s then [detailChanged min max noHop] else [])).
Proof.
  intros Hw. unfold onNewZoomLevel. rewrite (getZoomRange_reads s w Hw).
  destruct (zoomWindow _ _ _ _ _ _) as [[mn mx] nh]. reflexivity.
Qed.

(** The slots run on a dialog that holds its waterfall. *)
Lemma deliver_defined (sg : WaterfallSignal) (s : PanoramicDialog)
    (w : Waterfall) :
  m_waterfall s = Some w ->
  exists r, waterfallSlot sg s = Some r /\ deliver [sg] s = (r.1, r.2 ++ []).
Proof.
  intros Hw. destruct sg. cbn [waterfallSlot deliver].
  rewrite (onNewZoomLevel_reads s w Hw).
  eexists. split; [reflexivity|]. cbn [default from_option id].
  destruct (zoomWindow _ _ _ _ _ _) as [[mn mx] nh]. reflexivity.
Qed.

(** [adjustRanges] in one piece: the range in order, the waterfall set
    for it, and the flag and the width of the zoom slot. *)
Lemma adjustRanges_run_in_order (s : PanoramicDialog) (lo hi : SUFREQ) :
  ui_rangeStartSpin s = lo -> ui_rangeEndSpin s = hi ->
  Qgt_bool lo hi = false ->
  adjustRanges_run s = (adjusted lo hi s, adjusted_signals lo hi s).
Proof.
  intros <- <- Hc. unfold adjustRanges_run. rewrite Hc.
  destruct s as [a b lnb rel ex [w|] run fr fs fe df sv mb cb fx];
    [|reflexivity].
  unfold adjusted, adjusted_signals.
  cbn [m_waterfall ui_rangeStartSpin ui_rangeEndSpin set_rangeStartSpin
       set_rangeEndSpin resetHorizontalZoom deliver waterfallSlot].
  erewrite onNewZoomLevel_reads by reflexivity.
  cbn [default from_option id].
  unfold getMinFreq, getMaxFreq, getRelBw.
  cbn [m_waterfall ui_rangeStartSpin ui_rangeEndSpin set_waterfall
       m_minBwForZoom ui_relBwSlider m_running
       wf_centerFreq wf_fftCenterFreq wf_spanFreq
       setSpanFreq setFftCenterFreq setCenterFreq setSampleRate setFreqUnits
       wf_sampleRate].
  destruct (zoomWindow _ _ _ _ _ _) as [[mn mx] nh].
  rewrite app_nil_r. reflexivity.
Qed.

Lemma adjustRanges_run_reversed (s : PanoramicDialog) (lo hi : SUFREQ) :
  ui_rangeStartSpin s = hi -> ui_rangeEndSpin s = lo ->
  Qgt_bool hi lo = true ->
  adjustRanges_run s = (adjusted lo hi s, adjusted_signals lo hi s).
Proof.
  intros <- <- Hc. unfold adjustRanges_run. rewrite Hc.
  destruct s as [a b lnb rel ex [w|] run fr fs fe df sv mb cb fx];
    [|reflexivity].
  unfold adjusted, adjusted_signals.
  cbn [m_waterfall ui_rangeStartSpin ui_rangeEndSpin set_rangeStartSpin
       set_rangeEndSpin resetHorizontalZoom deliver waterfallSlot].
  erewrite onNewZoomLevel_reads by reflexivity.
  cbn [default from_option id].
  unfold getMinFreq, getMaxFreq, getRelBw.
  cbn [m_waterfall ui_rangeStartSpin ui_rangeEndSpin set_waterfall
       m_minBwForZoom ui_relBwSlider m_running
       wf_centerFreq wf_fftCenterFreq wf_spanFreq
       setSpanFreq setFftCenterFreq setCenterFreq setSampleRate setFreqUnits
       wf_sampleRate].
  destruct (zoomWindow _ _ _ _ _ _) as [[mn mx] nh].
  rewrite app_nil_r. reflexivity.
Qed.

(** Every run of [adjustRanges] is the run for the two spin values taken
    in order. *)
Lemma adjustRanges_run_cases (s : PanoramicDialog) :
  exists lo hi,
    adjustRanges_run s = (adjusted lo hi s, adjusted_signals lo hi s)
    /\ (lo, hi) = (if Qgt_bool (ui_rangeStartSpin s) (ui_rangeEndSpin s)
                   then (ui_rangeEndSpin s, ui_rangeStartSpin s)
                   else (ui_rangeStartSpin s, ui_rangeEndSpin s)).
Proof.
  destruct (Qgt_bool (ui_rangeStartSpin s) (ui_rangeEndSpin s)) eqn:Hc.
  - exists (ui_rangeEndSpin s), (ui_rangeStartSpin s).
    split; [|reflexivity].
    exact (adjustRanges_run_reversed s _ _ eq_refl eq_refl Hc).
  - exists (ui_rangeStartSpin s), (ui_rangeEndSpin s).
    split; [|reflexivity].
    exact (adjustRanges_run_in_order s _ _ eq_refl eq_refl Hc).
Qed.

Lemma adjustRanges_in_order (s : PanoramicDialog) (lo hi : SUFREQ) :
  ui_rangeStartSpin s = lo -> ui_rangeEndSpin s = hi ->
  Qgt_bool lo hi = false ->
  adjustRanges s = adjusted lo hi s.
Proof.
  intros Hlo Hhi Hc. unfold adjustRanges.
  rewrite (adjustRanges_run_in_order s lo hi Hlo Hhi Hc). reflexivity.
Qed.

Lemma adjustRanges_reversed (s : PanoramicDialog) (lo hi : SUFREQ) :
  ui_rangeStartSpin s = hi -> ui_rangeEndSpin s = lo ->
  Qgt_bool hi lo = true ->
  adjustRanges s = adjusted lo hi s.
Proof.
  intros Hlo Hhi Hc. unfold adjustRanges.
  rewrite (adjustRanges_run_reversed s lo hi Hlo Hhi Hc). reflexivity.
Qed.

Lemma adjusted_frame (lo hi : SUFREQ) (s : PanoramicDialog) :
  engine_kept s (adjusted lo hi s).
Proof.
  unfold engine_kept, adjusted.
  destruct s as [a b lnb rel ex [w|] run fr fs fe df sv mb cb fx];
    cbn [m_waterfall set_rangeStartSpin set_rangeEndSpin];
    [destruct (zoomWindow _ _ _ _ _ _) as [[mn mx] nh]|];
    repeat split; reflexivity.
Qed.

Lemma adjusted_range (lo hi : SUFREQ) (s : PanoramicDialog) :
  ui_rangeStartSpin (adjusted lo hi s) = lo
  /\ ui_rangeEndSpin (adjusted lo hi s) = hi.
Proof.
  unfold adjusted.
  destruct s as [a b lnb rel ex [w|] run fr fs fe df sv mb cb fx];
    cbn [m_waterfall set_rangeStartSpin set_rangeEndSpin];
    [destruct (zoomWindow _ _ _ _ _ _) as [[mn mx] nh]|];
    split; reflexivity.
Qed.

Lemma adjusted_waterfall (lo hi : SUFREQ) (s : PanoramicDialog) :
  m_waterfall (adjusted lo hi s)
  = waterfall_for_range lo hi <$> m_waterfall s.
Proof.
  unfold adjusted.
  destruct s as [a b lnb rel ex [w|] run fr fs fe df sv mb cb fx];
    cbn [m_waterfall set_rangeStartSpin set_rangeEndSpin];
    [destruct (zoomWindow _ _ _ _ _ _) as [[mn mx] nh]|];
    reflexivity.
Qed.

(** The flag and the width [adjustRanges] leaves are the ones of the
    window [getZoomRange] finds on the state it leaves. *)
Lemma adjusted_zoom (lo hi : SUFREQ) (s : PanoramicDialog) :
  zoom_recomputed s (adjusted lo hi s) (adjusted_signals lo hi s).
Proof.
  unfold zoom_recomputed, adjusted, adjusted_signals.
  destruct s as [a b lnb rel ex [w|] run fr fs fe df sv mb cb fx];
    unfold getRelBw;
    cbn [m_waterfall set_rangeStartSpin set_rangeEndSpin m_minBwForZoom
         m_running ui_relBwSlider];
    [|repeat split; reflexivity].
  destruct (zoomWindow _ _ _ _ _ _) as [[mn mx] nh] eqn:Ez.
  exists mn, mx.
  erewrite getZoomRange_reads by reflexivity.
  unfold getMinFreq, getMaxFreq, getRelBw.
  cbn [m_fixedFreqMode m_currBw set_waterfall set_currBw set_fixedFreqMode
       m_minBwForZoom ui_relBwSlider ui_rangeStartSpin ui_rangeEndSpin
       set_rangeStartSpin set_rangeEndSpin
       waterfall_for_range wf_centerFreq wf_fftCenterFreq wf_spanFreq].
  rewrite Ez.
  split; [reflexivity|]. split; [reflexivity|].
  split; intros ->; reflexivity.
Qed.

Lemma adjustRanges_frame (s : PanoramicDialog) : engine_kept s (adjustRanges s).
Proof.
  unfold adjustRanges.
  destruct (adjustRanges_run_cases s) as (lo & hi & -> & _).
  apply adjusted_frame.
Qed.

Lemma adjustRanges_range (s : PanoramicDialog) :
  (ui_rangeStartSpin (adjustRanges s), ui_rangeEndSpin (adjustRanges s))
  = if Qgt_bool (ui_rangeStartSpin s) (ui_rangeEndSpin s)
    then (ui_rangeEndSpin s, ui_rangeStartSpin s)
    else (ui_rangeStartSpin s, ui_rangeEndSpin s).
Proof.
  unfold adjustRanges.
  destruct (adjustRanges_run_cases s) as (lo & hi & -> & <-).
  destruct (adjusted_range lo hi s) as [E1 E2].
  cbn [fst]. rewrite E1, E2. reflexivity.
Qed.

(** Everything [adjustRanges] sets on the waterfall. *)
Lemma adjustRanges_waterfall (s : PanoramicDialog) (w : Waterfall) :
  m_waterfall s = Some w ->
  let lo := ui_rangeStartSpin (adjustRanges s) in
  let hi := ui_rangeEndSpin (adjustRanges s) in
  let demodBw :=
    if Qgt_bool ((hi - lo) / 20) 4000000000
    then 4000000000%Q else ((hi - lo) / 20)%Q in
  m_waterfall (adjustRanges s)
  = Some {| wf_freqUnits := getFrequencyUnits (to_qint64 hi);
            wf_spanFreq := to_qint64 (hi - lo)%Q;
            wf_sampleRate := to_qint64 (hi - lo)%Q;
            wf_centerFreq := to_qint64 (hi + lo)%Q ÷ 2;
            wf_fftCenterFreq := 0;
            wf_filterOffset := wf_filterOffset w;
            wf_partialFftData := [];
            wf_demodRanges :=
              ((- (hi - lo) / 2)%Q, 0%Q, 0%Q, ((hi - lo) / 2)%Q, true);
            wf_lowCut := (- demodBw / 2)%Q;
            wf_hiCut := (demodBw / 2)%Q;
            wf_runningState := wf_runningState w |}.
Proof.
  intros Hw. unfold adjustRanges.
  destruct (adjustRanges_run_cases s) as (lo & hi & -> & _).
  cbn [fst]. destruct (adjusted_range lo hi s) as [-> ->].
  rewrite adjusted_waterfall, Hw. reflexivity.
Qed.

Lemma adjustRanges_null_waterfall (s : PanoramicDialog) :
  m_waterfall s = None -> m_waterfall (adjustRanges s) = None.
Proof.
  intros Hw. unfold adjustRanges.
  destruct (adjustRanges_run_cases s) as (lo & hi & -> & _).
  cbn [fst]. rewrite adjusted_waterfall, Hw. reflexivity.
Qed.

Lemma adjustRanges_reset (s : PanoramicDialog) : waterfall_reset s (adjustRanges s).
Proof.
  intros w Hw. eexists. split; [apply (adjustRanges_waterfall s w Hw)|].
  cbn. repeat split; reflexivity.
Qed.

Lemma adjustRanges_zoom (s : PanoramicDialog) :
  zoom_recomputed s (adjustRanges s) (adjustRanges_run s).2.
Proof.
  unfold adjustRanges.
  destruct (adjustRanges_run_cases s) as (lo & hi & -> & _).
  apply adjusted_zoom.
Qed.

Lemma adjustRanges_ordered (s : PanoramicDialog) :
  (ui_rangeStartSpin (adjustRanges s) <= ui_rangeEndSpin (adjustRanges s))%Q.
Proof.
  pose proof (adjustRanges_range s) as Hr.
  destruct (Qgt_bool (ui_rangeStartSpin s) (ui_rangeEndSpin s)) eqn:Hc;
    inversion Hr as [[H1 H2]]; rewrite H1, H2.
  - apply Qgt_bool_true in Hc. apply Qlt_le_weak. exact Hc.
  - apply Qgt_bool_false in Hc. exact Hc.
Qed.

(** C6.  After [adjustRanges] the range reads back with [min <= max]: a
    reversed pair has been swapped, a pair in order is left as it was;
    there is no other outcome. *)
Theorem adjustRanges_normalizes (s : PanoramicDialog) :
  (getMinFreq (adjustRanges s) <= getMaxFreq (adjustRanges s))%Q
  /\ ((getMaxFreq s < getMinFreq s)%Q ->
      getMinFreq (adjustRanges s) = getMaxFreq s
      /\ getMaxFreq (adjustRanges s) = getMinFreq s)
  /\ ((getMinFreq s <= getMaxFreq s)%Q ->
      getMinFreq (adjustRanges s) = getMinFreq s
      /\ getMaxFreq (adjustRanges s) = getMaxFreq s).
Proof.
  unfold getMinFreq, getMaxFreq.
  pose proof (adjustRanges_range s) as Hr.
  destruct (Qgt_bool (ui_rangeStartSpin s) (ui_rangeEndSpin s)) eqn:Hc;
    inversion Hr as [[H1 H2]]; rewrite H1, H2.
  - apply Qgt_bool_true in Hc. split; [apply Qlt_le_weak; exact Hc|].
    split; [intros _; split; reflexivity|].
    intros Hle. exfalso. exact (Qlt_not_le _ _ Hc Hle).
  - apply Qgt_bool_false in Hc. split; [exact Hc|].
    split; [|intros _; split; reflexivity].
    intros Hlt. exfalso. exact (Qlt_not_le _ _ Hlt Hc).
Qed.

Example adjustRanges_swaps_300_100 :
  getMinFreq (adjustRanges (Examples.dialog 300%Q 100%Q None)) = 100%Q
  /\ getMaxFreq (adjustRanges (Examples.dialog 300%Q 100%Q None)) = 300%Q.
Proof. split; reflexivity. Qed.

(** C9.  The cut frequencies [adjustRanges] applies are symmetric, and the
    half-width is [bandwidth / 20 / 2] capped at 2 GHz, which is the
    source's [min (bandwidth / 20, 4e9) / 2]. *)
Theorem adjustRanges_demod_cut (s : PanoramicDialog) (w : Waterfall) :
  m_waterfall s = Some w ->
  exists w',
    m_waterfall (adjustRanges s) = Some w'
    /\ (wf_hiCut w'
        == Qmin ((getMaxFreq (adjustRanges s) - getMinFreq (adjustRanges s))
                 / 20 / 2) 2000000000)%Q
    /\ (wf_hiCut w'
        == Qmin ((getMaxFreq (adjustRanges s) - getMinFreq (adjustRanges s))
                 / 20) 4000000000 / 2)%Q
    /\ (wf_lowCut w' == - wf_hiCut w')%Q.
Proof.
  intros Hw. eexists. split; [apply (adjustRanges_waterfall s w Hw)|].
  unfold getMaxFreq, getMinFreq. cbn [wf_hiCut wf_lowCut].
  apply capped_half.
Qed.

Lemma adjustRanges_demod_cut_witness :
  exists w',
    m_waterfall
      (adjustRanges (Examples.dialog 0%Q 100000000000%Q
                       (Some (Examples.view 50 0 100)))) = Some w'
    /\ (wf_hiCut w' == 2000000000)%Q
    /\ (wf_lowCut w' == - 2000000000)%Q.
Proof.
  destruct (adjustRanges_demod_cut
              (Examples.dialog 0%Q 100000000000%Q (Some (Examples.view 50 0 100)))
              (Examples.view 50 0 100) eq_refl)
    as (w' & Hw & Hhi & _ & Hlo).
  exists w'. split; [exact Hw|].
  assert (wf_hiCut w' == 2000000000)%Q as E by (rewrite Hhi; reflexivity).
  split; [exact E|]. rewrite Hlo, E. reflexivity.
Defined.

Example adjustRanges_cut_small_range :
  exists w',
    m_waterfall
      (adjustRanges (Examples.dialog 0%Q 100%Q (Some (Examples.view 50 0 100))))
    = Some w'
    /\ (wf_hiCut w' == 5 # 2)%Q /\ (wf_lowCut w' == - (5 # 2))%Q.
Proof. eexists. split; [reflexivity|]. split; reflexivity. Qed.

End RangeFacts.

(** ** Range edits *)

Section RangeEvents.
Import Dialog WaterfallOps.

Lemma engine_kept_refl (s : PanoramicDialog) : engine_kept s s.
Proof. unfold engine_kept. repeat split; reflexivity. Qed.

Lemma engine_kept_trans (s1 s2 s3 : PanoramicDialog) :
  engine_kept s1 s2 -> engine_kept s2 s3 -> engine_kept s1 s3.
Proof.
  unfold engine_kept. intros H12 H23.
  destruct H12 as (?&?&?&?&?&?&?&?), H23 as (?&?&?&?&?&?&?&?).
  repeat split; congruence.
Qed.

Lemma waterfall_reset_after (s1 s2 s3 : PanoramicDialog) :
  waterfall_reset s1 s2 -> waterfall_reset s2 s3 -> waterfall_reset s1 s3.
Proof.
  intros H12 H23 w Hw. destruct (H12 w Hw) as (w2 & Hw2 & _).
  exact (H23 w2 Hw2).
Qed.

(** One run of [adjustRanges]. *)
Lemma adjustRanges_run_done (s : PanoramicDialog) :
  adjustRanges_done s (adjustRanges_run s).1 (adjustRanges_run s).2.
Proof.
  split; [exact (adjustRanges_frame s)|].
  split; [exact (adjustRanges_reset s)|].
  split; [exact (adjustRanges_null_waterfall s)|].
  split; [exact (adjustRanges_zoom s)|exact (adjustRanges_ordered s)].
Qed.

(** A second run after a first one: the signals of both, in order. *)
Lemma adjustRanges_done_twice (s s1 s2 : PanoramicDialog)
    (out1 out2 : list Signal) :
  adjustRanges_done s s1 out1 -> adjustRanges_done s1 s2 out2 ->
  adjustRanges_done s s2 (out1 ++ out2).
Proof.
  intros (K1 & R1 & N1 & Z1 & _) (K2 & R2 & N2 & Z2 & O2).
  split; [exact (engine_kept_trans _ _ _ K1 K2)|].
  split; [exact (waterfall_reset_after _ _ _ R1 R2)|].
  split; [auto|]. split; [|exact O2].
  unfold zoom_recomputed in *.
  destruct (m_waterfall s) as [w|] eqn:Hw.
  - destruct (R1 w Hw) as (w1 & Hw1 & _). rewrite Hw1 in Z2.
    destruct Z1 as (? & ? & _ & _ & _ & Hidle1).
    destruct Z2 as (mn & mx & Hz & Hbw & Hrun2 & Hidle2).
    assert (m_running s1 = m_running s) as Hr by apply K1.
    rewrite Hr in Hrun2, Hidle2.
    exists mn, mx. split; [exact Hz|]. split; [exact Hbw|]. split.
    + intros Hrun. specialize (Hrun2 Hrun).
      destruct out2 as [|sg out2]; [discriminate Hrun2|].
      rewrite <- Hrun2. apply last_app_cons.
    + intros Hidle. rewrite (Hidle1 Hidle), (Hidle2 Hidle). reflexivity.
  - rewrite (N1 eq_refl) in Z2.
    destruct Z1 as (F1 & B1 & ->), Z2 as (F2 & B2 & ->).
    repeat split; congruence.
Qed.

(** Runs one after the other, some of which may have been no run at
    all. *)
Lemma adjustRanges_done_after (s s1 s2 : PanoramicDialog)
    (out1 out2 : list Signal) :
  (s1 = s /\ out1 = []) \/ adjustRanges_done s s1 out1 ->
  adjustRanges_done s1 s2 out2 ->
  adjustRanges_done s s2 (out1 ++ out2).
Proof.
  intros [[-> ->]|D1] D2; [exact D2|].
  exact (adjustRanges_done_twice _ _ _ _ _ D1 D2).
Qed.

Lemma adjustRanges_done_maybe (s s1 s2 : PanoramicDialog)
    (out1 out2 : list Signal) :
  (s1 = s /\ out1 = []) \/ adjustRanges_done s s1 out1 ->
  (s2 = s1 /\ out2 = []) \/ adjustRanges_done s1 s2 out2 ->
  (s2 = s /\ out1 ++ out2 = []) \/ adjustRanges_done s s2 (out1 ++ out2).
Proof.
  intros H1 [[-> ->]|D2].
  - rewrite app_nil_r. exact H1.
  - right. exact (adjustRanges_done_after _ _ _ _ _ H1 D2).
Qed.

(** The two [setValue] calls of the swap: nothing at all, or a run of
    [adjustRanges]. *)
Lemma swap_setStart_effect (v : SUFREQ) (s : PanoramicDialog) :
  ((swap_setStart v s).1 = s /\ (swap_setStart v s).2 = [])
  \/ adjustRanges_done s (swap_setStart v s).1 (swap_setStart v s).2.
Proof.
  unfold swap_setStart.
  destruct (Qeq_bool (ui_rangeStartSpin s) v); [left; split; reflexivity|].
  right. exact (adjustRanges_run_done (set_rangeStartSpin v s)).
Qed.

Lemma swap_setEnd_effect (v : SUFREQ) (s : PanoramicDialog) :
  ((swap_setEnd v s).1 = s /\ (swap_setEnd v s).2 = [])
  \/ adjustRanges_done s (swap_setEnd v s).1 (swap_setEnd v s).2.
Proof.
  unfold swap_setEnd.
  destruct (Qeq_bool (ui_rangeEndSpin s) v); [left; split; reflexivity|].
  right. exact (adjustRanges_run_done (set_rangeEndSpin v s)).
Qed.

(** [adjustRanges] with its re-entry. *)
Lemma adjustRanges_reentrant_run_done (s : PanoramicDialog) :
  adjustRanges_done s (adjustRanges_reentrant_run s).1
                      (adjustRanges_reentrant_run s).2.
Proof.
  unfold adjustRanges_reentrant_run.
  destruct (Qgt_bool (ui_rangeStartSpin s) (ui_rangeEndSpin s));
    [|exact (adjustRanges_run_done s)].
  pose proof (swap_setStart_effect (ui_rangeEndSpin s) s) as H1.
  destruct (swap_setStart (ui_rangeEndSpin s) s) as [s1 out1].
  pose proof (swap_setEnd_effect (ui_rangeStartSpin s) s1) as H2.
  destruct (swap_setEnd (ui_rangeStartSpin s) s1) as [s2 out2].
  pose proof (adjustRanges_run_done s2) as D3.
  destruct (adjustRanges_run s2) as [s3 out3].
  cbn [fst snd] in *. rewrite app_assoc.
  exact (adjustRanges_done_after _ _ _ _ _
           (adjustRanges_done_maybe _ _ _ _ _ H1 H2) D3).
Qed.

(** A range spin box that is set either keeps the whole state, or stores
    the value and runs [adjustRanges]. *)
Lemma rangeStartSpin_setValue_effect (v : SUFREQ) (s : PanoramicDialog) :
  ((rangeStartSpin_setValue v s).1 = s /\ (rangeStartSpin_setValue v s).2 = [])
  \/ adjustRanges_done s (rangeStartSpin_setValue v s).1
                         (rangeStartSpin_setValue v s).2.
Proof.
  unfold rangeStartSpin_setValue, onFreqRangeChanged.
  destruct (Qeq_bool (ui_rangeStartSpin s) v); [left; split; reflexivity|].
  right. exact (adjustRanges_reentrant_run_done (set_rangeStartSpin v s)).
Qed.

Lemma rangeEndSpin_setValue_effect (v : SUFREQ) (s : PanoramicDialog) :
  ((rangeEndSpin_setValue v s).1 = s /\ (rangeEndSpin_setValue v s).2 = [])
  \/ adjustRanges_done s (rangeEndSpin_setValue v s).1
                         (rangeEndSpin_setValue v s).2.
Proof.
  unfold rangeEndSpin_setValue, onFreqRangeChanged.
  destruct (Qeq_bool (ui_rangeEndSpin s) v); [left; split; reflexivity|].
  right. exact (adjustRanges_reentrant_run_done (set_rangeEndSpin v s)).
Qed.

Lemma onFullRangeChanged_effect (checked : bool) (dev : option Device)
    (s : PanoramicDialog) :
  ((onFullRangeChanged checked dev s).1 = s
   /\ (onFullRangeChanged checked dev s).2 = [])
  \/ adjustRanges_done s (onFullRangeChanged checked dev s).1
                         (onFullRangeChanged checked dev s).2.
Proof.
  unfold onFullRangeChanged.
  destruct dev as [d|]; [|left; split; reflexivity].
  destruct checked; [|left; split; reflexivity].
  pose proof (rangeStartSpin_setValue_effect
                (dev_minFreq d + getLnbOffset s)%Q s) as H1.
  destruct (rangeStartSpin_setValue (dev_minFreq d + getLnbOffset s)%Q s)
    as [s1 out1].
  pose proof (rangeEndSpin_setValue_effect
                (dev_maxFreq d + getLnbOffset s1)%Q s1) as H2.
  destruct (rangeEndSpin_setValue (dev_maxFreq d + getLnbOffset s1)%Q s1)
    as [s2 out2].
  exact (adjustRanges_done_maybe _ _ _ _ _ H1 H2).
Qed.

(** Every edit of the range goes through, and is nothing at all or one
    or two runs of [adjustRanges]. *)
Lemma range_event_effect (s : PanoramicDialog) (e : Event) :
  is_range_event e = true ->
  exists s' out,
    step s e = Some (s', out)
    /\ ((s' = s /\ out = []) \/ adjustRanges_done s s' out).
Proof.
  intros He.
  assert (forall r : PanoramicDialog * list Signal,
            (r.1 = s /\ r.2 = []) \/ adjustRanges_done s r.1 r.2 ->
            exists s' out,
              Some r = Some (s', out)
              /\ ((s' = s /\ out = []) \/ adjustRanges_done s s' out)) as Hgen.
  { intros [s' out] Hr. exists s', out. split; [reflexivity|exact Hr]. }
  destruct e; try discriminate He; cbn [step]; apply Hgen.
  - apply rangeStartSpin_setValue_effect.
  - apply rangeEndSpin_setValue_effect.
  - apply onFullRangeChanged_effect.
Qed.

(** C3, as amended.  An edit of the scan range (either spin box, or the
    full-range box) always goes through, and it keeps the saved spectrum
    and the frame counter as they were.  When it alters the minimum or the
    maximum, it drops the partial spectra of the waterfall and resets its
    horizontal zoom, and the zoom slot runs on the new range: the
    fixed-frequency flag and the width it stores are the ones
    [getZoomRange] computes for the new range, and the signals end with
    the [detailChanged] of that window while a scan is active and are
    none otherwise.  Without a waterfall the flag stays as it was. *)
Theorem range_change_keeps_snapshot (s : PanoramicDialog) (e : Event) :
  is_range_event e = true ->
  exists s' out,
    step s e = Some (s', out)
    /\ m_saved s' = m_saved s
    /\ m_frames s' = m_frames s
    /\ (getMinFreq s' <> getMinFreq s \/ getMaxFreq s' <> getMaxFreq s ->
        waterfall_reset s s' /\ zoom_recomputed s s' out).
Proof.
  intros He.
  destruct (range_event_effect s e He) as (s' & out & Hs & Hcase).
  exists s', out. split; [exact Hs|].
  destruct Hcase as [[-> ->]|(K & R & _ & Z & _)].
  - split; [reflexivity|]. split; [reflexivity|].
    intros [Hn|Hn]; congruence.
  - split; [apply K|]. split; [apply K|].
    intros _. split; [exact R|exact Z].
Qed.

Lemma range_change_keeps_snapshot_witness :
  exists s' out,
    step Examples.fed (EvRangeEnd 200%Q) = Some (s', out)
    /\ m_saved s' = m_saved Examples.fed
    /\ m_frames s' = m_frames Examples.fed
    /\ (getMinFreq s' <> getMinFreq Examples.fed
        \/ getMaxFreq s' <> getMaxFreq Examples.fed ->
        waterfall_reset Examples.fed s'
        /\ zoom_recomputed Examples.fed s' out).
Proof.
  exact (range_change_keeps_snapshot Examples.fed (EvRangeEnd 200%Q) eq_refl).
Defined.

(** The range goes from [0 .. 100] to [0 .. 200]: the three samples saved
    before are still the spectrum to export afterwards. *)
Lemma range_change_counterexample :
  exists s' out,
    step Examples.fed (EvRangeEnd 200%Q) = Some (s', out)
    /\ getMaxFreq Examples.fed = 100%Q
    /\ getMaxFreq s' = 200%Q
    /\ m_saved s'
       = {| start := 1000000; end_ := 2000000; data := [1%Q; 2%Q; 3%Q] |}
    /\ data (m_saved s') <> [].
Proof.
  do 2 eexists. split; [reflexivity|]. split; [reflexivity|].
  split; [reflexivity|]. split; [reflexivity|]. discriminate.
Qed.

(** The same edit on the running dialog: the flag stored as [true] is
    computed again for the 200 Hz of the new range, above the threshold
    of 50 Hz, and the new window is sent to the scanner. *)
Example range_change_runs_zoom_slot :
  step Examples.fed (EvRangeEnd 200%Q)
  = Some (Dialog.adjusted 0%Q 200%Q Examples.fed, [detailChanged 0 200 false])
  /\ m_fixedFreqMode Examples.fed = true
  /\ m_fixedFreqMode (Dialog.adjusted 0%Q 200%Q Examples.fed) = false
  /\ m_currBw (Dialog.adjusted 0%Q 200%Q Examples.fed) = 200.
Proof. repeat split; reflexivity. Qed.

(** A range no wider than the threshold sets the flag. *)
Example range_change_sets_flag :
  step (Examples.dialog 0%Q 100%Q (Some (Examples.view 50 0 100)))
       (EvRangeEnd 40%Q)
  = Some (Dialog.adjusted 0%Q 40%Q
            (Examples.dialog 0%Q 100%Q (Some (Examples.view 50 0 100))),
          [detailChanged 0 40 true])
  /\ m_fixedFreqMode
       (Examples.dialog 0%Q 100%Q (Some (Examples.view 50 0 100))) = false
  /\ m_fixedFreqMode
       (Dialog.adjusted 0%Q 40%Q
          (Examples.dialog 0%Q 100%Q (Some (Examples.view 50 0 100)))) = true.
Proof. repeat split; reflexivity. Qed.

(** X7.  The order of the range survives every edit. *)
Lemma range_edit_keeps_order (s : PanoramicDialog) (e : Event) :
  is_range_event e = true ->
  (getMinFreq s <= getMaxFreq s)%Q ->
  exists s' out,
    step s e = Some (s', out) /\ (getMinFreq s' <= getMaxFreq s')%Q.
Proof.
  intros He Hs.
  destruct (range_event_effect s e He) as (s' & out & Hstep & [[-> ->]|D]).
  - exists s, []. split; [exact Hstep|exact Hs].
  - exists s', out. split; [exact Hstep|]. apply D.
Qed.

End RangeEvents.

(** ** Re-entrant runs of the range slot *)

Section Reentrant.
Import Dialog WaterfallOps.

Lemma Qgt_bool_irrefl (a : Q) : Qgt_bool a a = false.
Proof. apply Qgt_bool_false. apply Qle_refl. Qed.

Lemma Qgt_bool_asym (a b : Q) : Qgt_bool a b = true -> Qgt_bool b a = false.
Proof.
  intros H. apply Qgt_bool_true in H. apply Qgt_bool_false.
  apply Qlt_le_weak. exact H.
Qed.

Lemma Qgt_bool_neq (a b : Q) :
  Qgt_bool a b = true -> Qeq_bool a b = false /\ Qeq_bool b a = false.
Proof.
  intros H. apply Qgt_bool_true in H.
  split; apply not_true_is_false; intros E; apply Qeq_bool_iff in E;
    rewrite E in H; exact (Qlt_irrefl _ H).
Qed.

(** A run for a range overwrites all that a run for another range has
    left: the range, the waterfall, the flag and the width. *)
Lemma adjusted_absorbs (lo hi lo' hi' : SUFREQ) (s : PanoramicDialog) :
  adjusted lo hi (adjusted lo' hi' s) = adjusted lo hi s.
Proof.
  unfold adjusted.
  destruct s as [a b lnb rel ex [w|] run fr fs fe df sv mb cb fx];
    [|reflexivity].
  unfold getRelBw.
  cbn [m_waterfall set_rangeStartSpin set_rangeEndSpin m_minBwForZoom
       ui_relBwSlider].
  destruct (zoomWindow lo' hi' _ _ _ _) as [[mn' mx'] nh'].
  reflexivity.
Qed.

Lemma adjusted_set_start (lo hi v : SUFREQ) (s : PanoramicDialog) :
  adjusted lo hi (set_rangeStartSpin v s) = adjusted lo hi s.
Proof. reflexivity. Qed.

Lemma adjusted_set_end (lo hi v : SUFREQ) (s : PanoramicDialog) :
  adjusted lo hi (set_rangeEndSpin v s) = adjusted lo hi s.
Proof. reflexivity. Qed.

(** The states the two [setValue] calls of a swap leave. *)
Lemma swap_states (s : PanoramicDialog) :
  Qgt_bool (ui_rangeStartSpin s) (ui_rangeEndSpin s) = true ->
  (swap_setStart (ui_rangeEndSpin s) s).1
  = adjusted (ui_rangeEndSpin s) (ui_rangeEndSpin s) s
  /\ (swap_setEnd (ui_rangeStartSpin s)
        (adjusted (ui_rangeEndSpin s) (ui_rangeEndSpin s) s)).1
     = adjusted (ui_rangeEndSpin s) (ui_rangeStartSpin s) s.
Proof.
  intros Hc.
  set (a := ui_rangeStartSpin s) in *. set (b := ui_rangeEndSpin s) in *.
  pose proof (Qgt_bool_neq _ _ Hc) as [Hne1 Hne2].
  pose proof (Qgt_bool_asym _ _ Hc) as Has.
  pose proof (Qgt_bool_irrefl b) as Hir.
  split.
  - unfold swap_setStart. fold a. rewrite Hne1.
    rewrite (adjustRanges_run_in_order (set_rangeStartSpin b s) b b
               eq_refl eq_refl Hir).
    apply adjusted_set_start.
  - unfold swap_setEnd.
    rewrite (proj2 (adjusted_range b b s)). rewrite Hne2.
    rewrite (adjustRanges_run_in_order (set_rangeEndSpin a (adjusted b b s))
               b a (proj1 (adjusted_range b b s)) eq_refl Has).
    cbn [fst]. rewrite adjusted_set_end. apply adjusted_absorbs.
Qed.

(** Each run of [adjustRanges] that a swap re-enters, and the rest of the
    run that swaps, finds the range in order: no swap is nested in a
    swap. *)
Lemma swap_reenters_in_order (s : PanoramicDialog) :
  Qgt_bool (ui_rangeStartSpin s) (ui_rangeEndSpin s) = true ->
  let s0 := set_rangeStartSpin (ui_rangeEndSpin s) s in
  let s1 := (swap_setStart (ui_rangeEndSpin s) s).1 in
  let s1' := set_rangeEndSpin (ui_rangeStartSpin s) s1 in
  let s2 := (swap_setEnd (ui_rangeStartSpin s) s1).1 in
  Qgt_bool (ui_rangeStartSpin s0) (ui_rangeEndSpin s0) = false
  /\ Qgt_bool (ui_rangeStartSpin s1') (ui_rangeEndSpin s1') = false
  /\ Qgt_bool (ui_rangeStartSpin s2) (ui_rangeEndSpin s2) = false.
Proof.
  intros Hc. destruct (swap_states s Hc) as [E1 E2]. cbv zeta.
  rewrite E1, E2.
  split; [apply Qgt_bool_irrefl|].
  change (ui_rangeEndSpin (set_rangeEndSpin ?v ?t)) with v.
  change (ui_rangeStartSpin (set_rangeEndSpin ?v ?t))
    with (ui_rangeStartSpin t).
  destruct (adjusted_range (ui_rangeEndSpin s) (ui_rangeEndSpin s) s)
    as [-> _].
  destruct (adjusted_range (ui_rangeEndSpin s) (ui_rangeStartSpin s) s)
    as [-> ->].
  split; apply Qgt_bool_asym; exact Hc.
Qed.

(** X4.  The slot runs again from inside its own two [setValue] calls; the
    state it ends in is the one of a single straight run. *)
Lemma adjustRanges_reentrant_eq (s : PanoramicDialog) :
  adjustRanges_reentrant s = adjustRanges s.
Proof.
  unfold adjustRanges_reentrant, adjustRanges_reentrant_run.
  destruct (Qgt_bool (ui_rangeStartSpin s) (ui_rangeEndSpin s)) eqn:Hc;
    [|reflexivity].
  destruct (swap_states s Hc) as [E1 E2].
  pose proof (Qgt_bool_asym _ _ Hc) as Has.
  destruct (swap_setStart (ui_rangeEndSpin s) s) as [s1 out1].
  cbn [fst] in E1. subst s1.
  destruct (swap_setEnd (ui_rangeStartSpin s) _) as [s2 out2].
  cbn [fst] in E2. subst s2.
  destruct (adjusted_range (ui_rangeEndSpin s) (ui_rangeStartSpin s) s)
    as [Ra Rb].
  rewrite (adjustRanges_run_in_order _ _ _ Ra Rb Has).
  cbn [fst]. rewrite adjusted_absorbs.
  symmetry. exact (adjustRanges_reversed s _ _ eq_refl eq_refl Hc).
Qed.
End Reentrant.

(** ** Panning while zoomed *)

Section Pan.
Import Dialog WaterfallOps.

Lemma onNewZoomLevel_stores (s s1 : PanoramicDialog) (out1 : list Signal) :
  onNewZoomLevel s = Some (s1, out1) ->
  exists min max,
    getZoomRange s = Some (min, max, m_fixedFreqMode s1)
    /\ m_currBw s1 = max - min
    /\ m_running s1 = m_running s
    /\ out1 = (if m_running s
               then [detailChanged min max (m_fixedFreqMode s1)] else []).
Proof.
  unfold onNewZoomLevel.
  destruct (getZoomRange s) as [[[mn mx] nh]|]; cbn; [|discriminate].
  intros Hs. inversion Hs; subst; clear Hs. cbn.
  exists mn, mx. repeat split; reflexivity.
Qed.

(** One pan of a running dialog: the state is not touched and the signal
    carries the stored flag. *)
Lemma onNewFftCenterFreq_emits (s : PanoramicDialog) (w : Waterfall)
    (freq : qint64) :
  m_running s = true ->
  m_waterfall s = Some w ->
  exists min max,
    onNewFftCenterFreq s freq
    = Some (s, [detailChanged min max (m_fixedFreqMode s)]).
Proof.
  intros Hr Hw. unfold onNewFftCenterFreq. rewrite Hr, Hw. cbn.
  repeat match goal with
         | |- context [if ?c then _ else _] => destruct c; cbn
         end; do 2 eexists; reflexivity.
Qed.

Lemma onNewFftCenterFreq_idle (s : PanoramicDialog) (freq : qint64) :
  m_running s = false -> onNewFftCenterFreq s freq = Some (s, []).
Proof. intros Hr. unfold onNewFftCenterFreq. rewrite Hr. reflexivity. Qed.

Lemma onNewFftCenterFreq_flag (s s' : PanoramicDialog) (freq : qint64)
    (out : list Signal) :
  onNewFftCenterFreq s freq = Some (s', out) ->
  s' = s
  /\ Forall (fun sig => forall min max f,
               sig = detailChanged min max f -> f = m_fixedFreqMode s) out.
Proof.
  destruct (m_running s) eqn:Hr.
  - destruct (m_waterfall s) as [w|] eqn:Hw.
    + destruct (onNewFftCenterFreq_emits s w freq Hr Hw) as (mn & mx & E).
      rewrite E. intros Hs. inversion Hs; subst. split; [reflexivity|].
      constructor; [|constructor]. intros ? ? ? Hd. inversion Hd. reflexivity.
    + unfold onNewFftCenterFreq. rewrite Hr, Hw. discriminate.
  - rewrite (onNewFftCenterFreq_idle s freq Hr). intros Hs. inversion Hs.
    split; [reflexivity|constructor].
Qed.

Lemma setRunning_flag (r : bool) (s : PanoramicDialog) :
  m_fixedFreqMode (setRunning r s) = m_fixedFreqMode s.
Proof.
  unfold setRunning. destruct (r && negb (m_running s)); cbn;
    destruct (m_waterfall s); reflexivity.
Qed.

(** Only the events that run the zoom slot write the fixed-frequency
    flag. *)
Lemma step_keeps_flag (s s' : PanoramicDialog) (e : Event) (out : list Signal) :
  is_zoom e = false ->
  step s e = Some (s', out) ->
  m_fixedFreqMode s' = m_fixedFreqMode s
  /\ Forall (fun sig => forall min max f,
               sig = detailChanged min max f -> f = m_fixedFreqMode s) out.
Proof.
  intros Hz.
  destruct e; try discriminate Hz; cbn [step].
  - destruct (feed s freqStart freqEnd data0) as [t|] eqn:Hf; cbn;
      [|discriminate].
    intros Hs; inversion Hs; subst. split; [|constructor].
    apply (feed_frame _ _ _ _ _ Hf).
  - intros Hs; inversion Hs; subst. split; [|constructor].
    apply setRunning_flag.
  - intros Hs; inversion Hs; subst. split; [reflexivity|constructor].
  - intros Hs; inversion Hs; subst. split; [reflexivity|constructor].
  - intros Hs; inversion Hs; subst. split; [reflexivity|constructor].
  - intros Hs. destruct (onNewFftCenterFreq_flag _ _ _ _ Hs) as [-> Hout].
    split; [reflexivity|exact Hout].
Qed.

Lemma run_keeps_flag (es : list Event) (s s' : PanoramicDialog)
    (out : list Signal) :
  forallb (fun e => negb (is_zoom e)) es = true ->
  run s es = Some (s', out) ->
  m_fixedFreqMode s' = m_fixedFreqMode s
  /\ Forall (fun sig => forall min max f,
               sig = detailChanged min max f -> f = m_fixedFreqMode s) out.
Proof.
  revert s s' out. induction es as [|e es IH]; intros s s' out Hz Hrun.
  - cbn in Hrun. inversion Hrun; subst. split; [reflexivity|constructor].
  - cbn in Hz. apply andb_true_iff in Hz. destruct Hz as [He Hes].
    apply negb_true_iff in He.
    cbn [run] in Hrun.
    destruct (step s e) as [[s1 out1]|] eqn:Hstep; cbn in Hrun; [|discriminate].
    destruct (run s1 es) as [[s2 out2]|] eqn:Hrest; cbn in Hrun; [|discriminate].
    inversion Hrun; subst; clear Hrun.
    destruct (step_keeps_flag _ _ _ _ He Hstep) as [F1 O1].
    destruct (IH _ _ _ Hes Hrest) as [F2 O2].
    split; [congruence|].
    apply Forall_app. split; [exact O1|].
    rewrite <- F1. exact O2.
Qed.

Lemma run_pans (freqs : list qint64) (s : PanoramicDialog) (w : Waterfall) :
  m_running s = true ->
  m_waterfall s = Some w ->
  exists out,
    run s (map EvNewFftCenterFreq freqs) = Some (s, out)
    /\ length out = length freqs
    /\ Forall (fun sig => exists min max,
                 sig = detailChanged min max (m_fixedFreqMode s)) out.
Proof.
  intros Hr Hw. induction freqs as [|f freqs IH].
  - exists []. cbn. repeat split. constructor.
  - destruct IH as (out & Hrun & Hlen & Hall).
    destruct (onNewFftCenterFreq_emits s w f Hr Hw) as (mn & mx & E).
    exists (detailChanged mn mx (m_fixedFreqMode s) :: out).
    cbn [map run step]. rewrite E. cbn. rewrite Hrun. cbn.
    repeat split.
    + rewrite Hlen. reflexivity.
    + constructor; [eauto|exact Hall].
Qed.

(** C10.  The zoom slot stores the flag [getZoomRange] computes.  From
    then on every pan of the running dialog leaves the whole state as it
    is and emits one [detailChanged] carrying that stored flag; and over
    any run of events none of which runs the zoom slot again ([is_zoom]:
    a zoom level reported by the waterfall, also the one an edit of the
    range makes it report) the flag is never written and every
    [detailChanged] emitted carries it. *)
Theorem pan_keeps_fixed_mode (s s1 : PanoramicDialog) (out1 : list Signal) :
  onNewZoomLevel s = Some (s1, out1) ->
  (exists min max, getZoomRange s = Some (min, max, m_fixedFreqMode s1))
  /\ (m_running s1 = true ->
      forall freqs, exists out,
        run s1 (map EvNewFftCenterFreq freqs) = Some (s1, out)
        /\ length out = length freqs
        /\ Forall (fun sig => exists min max,
                     sig = detailChanged min max (m_fixedFreqMode s1)) out)
  /\ (forall es s2 out2,
        forallb (fun e => negb (is_zoom e)) es = true ->
        run s1 es = Some (s2, out2) ->
        m_fixedFreqMode s2 = m_fixedFreqMode s1
        /\ Forall (fun sig => forall min max f,
                     sig = detailChanged min max f -> f = m_fixedFreqMode s1)
                  out2).
Proof.
  intros Hz.
  destruct (onNewZoomLevel_stores _ _ _ Hz) as (mn & mx & Hg & _).
  split; [exists mn, mx; exact Hg|]. split.
  - intros Hr freqs.
    assert (exists w, m_waterfall s1 = Some w) as [w Hw].
    { unfold onNewZoomLevel, getZoomRange in Hz.
      destruct (m_waterfall s) as [w|] eqn:Hw; [|discriminate].
      cbn in Hz.
      repeat match type of Hz with
             | context [if ?c then _ else _] => destruct c; cbn in Hz
             end; inversion Hz; subst; cbn; eauto. }
    exact (run_pans freqs s1 w Hr Hw).
  - intros es s2 out2. apply run_keeps_flag.
Qed.
Lemma pan_keeps_fixed_mode_witness :
  onNewZoomLevel Examples.zoomed_in
  = Some (Examples.zoomed_stored, [detailChanged 0 51 false])
  /\ exists out,
       run Examples.zoomed_stored (map EvNewFftCenterFreq [0; 100])
       = Some (Examples.zoomed_stored, out)
       /\ length out = 2%nat
       /\ Forall (fun sig => exists min max,
                    sig = detailChanged min max false) out.
Proof.
  split; [reflexivity|].
  exact (proj1 (proj2 (pan_keeps_fixed_mode Examples.zoomed_in
                         Examples.zoomed_stored [detailChanged 0 51 false]
                         eq_refl))
               eq_refl [0; 100]).
Defined.

(** The zoom at the border is 51 Hz wide, above the threshold of 50 Hz,
    and stores [false].  The pan to the middle gives a window of 50 Hz,
    for which the test of [getZoomRange] would say [true]; the signal
    still carries the stored [false]. *)
Example pan_flag_is_the_stored_one :
  onNewZoomLevel Examples.zoomed_in
  = Some (Examples.zoomed_stored, [detailChanged 0 51 false])
  /\ onNewFftCenterFreq Examples.zoomed_stored 0
     = Some (Examples.zoomed_stored, [detailChanged 475 525 false])
  /\ Qle_bool (to_float (of_qint64 (525 - 475)))
              (to_float (to_float (inject_Z (m_minBwForZoom
                                               Examples.zoomed_stored))
                         * getRelBw Examples.zoomed_stored)) = true.
Proof. repeat split; reflexivity. Qed.


(** X2.  The pan slot clamps and shifts as [getZoomRange] does, for the centre
    it is given and the stored width as the span. *)
Lemma pan_window_is_zoom_window (s : PanoramicDialog) (w : Waterfall)
    (freq : qint64) :
  m_running s = true ->
  m_waterfall s = Some w ->
  exists min max noHop,
    getZoomRange
      (set_waterfall (Some (setSpanFreq (m_currBw s) (setFftCenterFreq freq w))) s)
    = Some (min, max, noHop)
    /\ onNewFftCenterFreq s freq
       = Some (s, [detailChanged min max (m_fixedFreqMode s)]).
Proof.
  intros Hr Hw.
  unfold onNewFftCenterFreq, getZoomRange, getMinFreq, getMaxFreq.
  rewrite Hr, Hw.
  cbn [negb mbind option_bind m_waterfall set_waterfall wf_centerFreq
       wf_fftCenterFreq wf_spanFreq setSpanFreq setFftCenterFreq
       ui_rangeStartSpin ui_rangeEndSpin m_minBwForZoom].
  rewrite (Z.add_comm freq (wf_centerFreq w)).
  set (mn := wf_centerFreq w + freq - m_currBw s ÷ 2).
  set (mx := wf_centerFreq w + freq + m_currBw s ÷ 2).
  destruct (Qle_bool (of_qint64 mn) (ui_rangeStartSpin s));
    destruct (Qle_bool (ui_rangeEndSpin s) (of_qint64 mx));
    cbn [orb andb negb]; do 3 eexists; split; reflexivity.
Qed.

(** X1.  With every frequency within 2^60 in magnitude, no intermediate value
    of [getZoomRange] leaves the [qint64] range. *)
Lemma getZoomRange_no_overflow (s : PanoramicDialog) (w : Waterfall) (a b : Z) :
  m_waterfall s = Some w ->
  getMinFreq s = inject_Z a ->
  getMaxFreq s = inject_Z b ->
  Z.abs (wf_centerFreq w) <= 2 ^ 60 ->
  Z.abs (wf_fftCenterFreq w) <= 2 ^ 60 ->
  Z.abs (wf_spanFreq w) <= 2 ^ 60 ->
  Z.abs a <= 2 ^ 60 ->
  Z.abs b <= 2 ^ 60 ->
  in_qint64 (zoomCenter w - wf_spanFreq w ÷ 2)
  /\ in_qint64 (zoomCenter w + wf_spanFreq w ÷ 2)
  /\ exists wmin wmax noHop,
       getZoomRange s = Some (wmin, wmax, noHop)
       /\ in_qint64 wmin /\ in_qint64 wmax /\ in_qint64 (wmax - wmin).
Proof.
  intros Hw Ha Hb Hc Hf Hs Hla Hlb.
  unfold getZoomRange, zoomCenter, in_qint64.
  rewrite Hw; cbn [mbind option_bind].
  rewrite Ha, Hb. unfold of_qint64. rewrite !Qle_bool_inject, !to_qint64_inject.
  set (fc := wf_centerFreq w + wf_fftCenterFreq w).
  set (span := wf_spanFreq w).
  assert (Z.abs (span ÷ 2) <= 2 ^ 59) as Hq.
  { subst span. change (2 ^ 59) with 576460752303423488.
    change (2 ^ 60) with 1152921504606846976 in Hs.
    Z.to_euclidean_division_equations. lia. }
  change (2 ^ 59) with 576460752303423488 in Hq.
  change (2 ^ 60) with 1152921504606846976 in *.
  change (2 ^ 63) with 9223372036854775808.
  assert (Z.abs fc <= 2 * 1152921504606846976) as Hfc by (subst fc; lia).
  split; [lia|]. split; [lia|].
  destruct (Z.leb_spec (fc - span ÷ 2) a) as [Hl|Hl];
    destruct (Z.leb_spec b (fc + span ÷ 2)) as [Hr|Hr]; cbn;
    do 3 eexists; (split; [reflexivity|]); lia.
Qed.
End Pan.

(** ** The gain store *)

Section Gains.
Import Config.

Lemma string_app_cons (x : ascii) (a b : string) :
  String x a +:+ b = String x (a +:+ b).
Proof. reflexivity. Qed.

Lemma string_app_nil (b : string) : "" +:+ b = b.
Proof. reflexivity. Qed.

(** A name without a dot ends where the first dot of the key is. *)
Lemma dotted_inj (d d' s s' : string) :
  has_char "." d = false ->
  has_char "." d' = false ->
  d +:+ "." +:+ s = d' +:+ "." +:+ s' ->
  d = d' /\ s = s'.
Proof.
  revert d'. induction d as [|x d IH]; intros [|y d'] Hd Hd' E.
  - rewrite !string_app_nil, !string_app_cons, !string_app_nil in E.
    inversion E. split; reflexivity.
  - rewrite string_app_nil, !string_app_cons, string_app_nil in E.
    inversion E; subst. cbn in Hd'. discriminate.
  - rewrite string_app_nil, !string_app_cons, string_app_nil in E.
    inversion E; subst. cbn in Hd. discriminate.
  - rewrite !string_app_cons in E. inversion E; subst.
    cbn in Hd, Hd'.
    destruct (Ascii.eqb y "."); [discriminate|].
    destruct (IH d' Hd Hd' H1) as [-> ->]. split; reflexivity.
Qed.

Lemma fullName_inj (d d' s s' : string) :
  has_char "." d = false ->
  has_char "." d' = false ->
  fullName d s = fullName d' s' ->
  d = d' /\ s = s'.
Proof.
  intros Hd Hd' E. unfold fullName in E.
  apply (inj (String.app "gain.")) in E.
  exact (dotted_inj d d' s s' Hd Hd' E).
Qed.

(** C7, as amended.  A store never written to reads [0] and has nothing;
    after [setGain d s v] the pair [(d, s)] reads [v] and is present; and
    [setGain d' s' w] leaves [(d, s)] as it was whenever the two keys
    ["gain." + device + "." + stage] differ, which they do for distinct
    pairs whose device names hold no dot. *)
Theorem gain_store_map (c : PanoramicDialogConfig) (d s d' s' : string)
    (v w : SUFLOAT) :
  getGain fresh d s = 0%Q
  /\ hasGain fresh d s = false
  /\ getGain (setGain c d s v) d s = v
  /\ hasGain (setGain c d s v) d s = true
  /\ (fullName d' s' <> fullName d s ->
      getGain (setGain c d' s' w) d s = getGain c d s
      /\ hasGain (setGain c d' s' w) d s = hasGain c d s)
  /\ (has_char "." d = false -> has_char "." d' = false ->
      (d', s') <> (d, s) ->
      getGain (setGain c d' s' w) d s = getGain c d s
      /\ hasGain (setGain c d' s' w) d s = hasGain c d s).
Proof.
  assert (fullName d' s' <> fullName d s ->
          getGain (setGain c d' s' w) d s = getGain c d s
          /\ hasGain (setGain c d' s' w) d s = hasGain c d s) as Hne.
  { intros Hk. unfold getGain, hasGain, setGain. cbn [gains].
    rewrite lookup_insert_ne by exact Hk. split; reflexivity. }
  split; [reflexivity|]. split; [reflexivity|].
  split; [unfold getGain, setGain; cbn [gains];
          rewrite lookup_insert_eq; reflexivity|].
  split; [unfold hasGain, setGain; cbn [gains];
          rewrite lookup_insert_eq; reflexivity|].
  split; [exact Hne|].
  intros Hd Hd' Hp. apply Hne. intros E.
  destruct (fullName_inj d' d s' s Hd' Hd E) as [-> ->]. apply Hp. reflexivity.
Qed.
Example gain_hackrf_lna :
  getGain fresh "hackrf" "LNA" = 0%Q
  /\ getGain (setGain fresh "hackrf" "LNA" 14%Q) "hackrf" "LNA" = 14%Q
  /\ hasGain (setGain fresh "hackrf" "LNA" 14%Q) "hackrf" "LNA" = true
  /\ getGain (setGain (setGain fresh "hackrf" "LNA" 14%Q) "hackrf" "VGA" 20%Q)
       "hackrf" "LNA" = 14%Q.
Proof. repeat split; vm_compute; reflexivity. Qed.

(** Two distinct pairs with one key: writing the stage ["b.c"] of device
    ["a"] changes what the stage ["c"] of device ["a.b"] reads. *)
Lemma gain_key_collision_counterexample :
  ("a", "b.c") <> ("a.b", "c")
  /\ fullName "a" "b.c" = fullName "a.b" "c"
  /\ getGain fresh "a.b" "c" = 0%Q
  /\ getGain (setGain fresh "a" "b.c" 5%Q) "a.b" "c" = 5%Q.
Proof.
  split; [discriminate|]. split; [reflexivity|].
  split; vm_compute; reflexivity.
Qed.

End Gains.

(** ** The band-plan loader *)

Section LoaderFacts.
Import BandPlan.
Context {Object : Type} `{SuscanObject Object}.

(** The table being filled is the last one of [m_FATs]: the loop appends
    to it the bands that do not throw, in order. *)
Lemma load_bands_last (bands : Object) (n i : nat)
    (pre : list (option FrequencyAllocationTable))
    (t : FrequencyAllocationTable) :
  load_bands bands i n (length pre) (pre ++ [Some t])
  = pre ++ [Some {| fat_name := fat_name t;
                    fat_bands :=
                      fat_bands t
                      ++ omap (fun i => try_catch
                                          (obj_at bands i
                                           ≫= deserializeFrequencyBand))
                              (seq i n) |}].
Proof.
  revert i t. induction n as [|n IH]; intros i t.
  - cbn. rewrite app_nil_r. destruct t; reflexivity.
  - cbn [load_bands seq omap list_omap].
    destruct (try_catch (obj_at bands i ≫= deserializeFrequencyBand))
      as [band|].
    + replace (alter (fmap (pushBand band)) (length pre) (pre ++ [Some t]))
        with (pre ++ [Some (pushBand band t)]).
      * rewrite IH. cbn. rewrite <- app_assoc. reflexivity.
      * rewrite alter_app_r_alt by reflexivity.
        rewrite Nat.sub_diag. reflexivity.
    + apply IH.
Qed.

Lemma load_tables_spec (catalog : list Object)
    (descr : list (string * Object))
    (pre : list (option FrequencyAllocationTable)) :
  Forall2 (fun p nb => table_of p nb.1 nb.2) catalog descr ->
  load_tables catalog (length pre) pre
  = (pre ++ map (fun nb => Some {| fat_name := nb.1;
                                   fat_bands := good_bands nb.2 |}) descr,
     false).
Proof.
  intros Hwf. revert pre.
  induction Hwf as [|p [name bands] catalog descr Hp _ IH]; intros pre.
  - cbn. rewrite app_nil_r. reflexivity.
  - destruct Hp as ((nameField & Hn & Hv) & Hb & Ht). cbn in Hv, Hb, Ht.
    cbn [load_tables]. rewrite Hn, Hb, Ht. cbn [is_set negb].
    rewrite resize_ge by lia.
    replace (length pre + 1 - length pre)%nat with 1%nat by lia.
    cbn [replicate].
    rewrite insert_app_r_alt by reflexivity.
    rewrite Nat.sub_diag. cbn [insert list_insert].
    rewrite load_bands_last. cbn [fat_name fat_bands newTable app].
    replace (length pre + 1)%nat
      with (length (pre ++ [Some {| fat_name := value nameField;
                                    fat_bands := good_bands bands |}])).
    + unfold good_bands at 1. rewrite IH. rewrite <- app_assoc.
      cbn. rewrite Hv. reflexivity.
    + rewrite length_app. reflexivity.
Qed.

Lemma good_bands_elem (bands : Object) (band : FrequencyBand) :
  band ∈ good_bands bands
  <-> exists i, (i < obj_length bands)%nat
                /\ obj_at bands i ≫= deserializeFrequencyBand = Return band.
Proof.
  unfold good_bands. rewrite list_elem_of_omap. split.
  - intros (i & Hi & Hb). exists i. apply elem_of_seq in Hi. split; [lia|].
    destruct (obj_at bands i ≫= deserializeFrequencyBand); cbn in Hb;
      congruence.
  - intros (i & Hi & Hb). exists i. split; [apply elem_of_seq; lia|].
    rewrite Hb. reflexivity.
Qed.
End LoaderFacts.

Section LoaderModel.
Import BandPlan ObjectModel.

(** In the object model the read of a number that is not there throws. *)
Lemma model_get_float_absent (members : list (string * Object))
    (name : string) (dfl : Q) :
  member name members = None ->
  get_float (OObject members) name dfl = Raise.
Proof. intros Hn. cbn. rewrite Hn. reflexivity. Qed.

(** A number that is there is read as a [float]. *)
Lemma model_get_float_present (members : list (string * Object))
    (name t : string) (dfl q : Q) :
  member name members = Some (OField t) ->
  get_float (OObject members) name dfl = Return q ->
  exists x, parse_whole t = Some x /\ q = to_float x
            /\ (Qabs q <= FLT_MAX)%Q.
Proof.
  intros Hm. cbn. rewrite Hm.
  destruct (parse_whole t) as [x|]; [|discriminate].
  destruct (Qle_bool (Qabs (to_float x)) FLT_MAX) eqn:Hle; [|discriminate].
  intros Hq. inversion Hq. exists x. split; [reflexivity|].
  split; [reflexivity|]. apply Qle_bool_iff. exact Hle.
Qed.

Lemma model_get_string_object (members : list (string * Object))
    (name dfl : string) :
  exists t, get_string (OObject members) name dfl = Return t.
Proof.
  cbn. destruct (member name members) as [[t| |]|]; eexists; reflexivity.
Qed.

(** In the object model an entry without [min] throws, and so does an
    entry that is no object. *)
Lemma model_band_without_min_throws (members : list (string * Object)) :
  member "min" members = None ->
  deserializeFrequencyBand (OObject members) = Raise.
Proof.
  intros Hn. unfold deserializeFrequencyBand.
  rewrite (model_get_float_absent members "min" 0%Q Hn). reflexivity.
Qed.

Lemma model_band_not_object_throws (o : Object) :
  m_getType o <> SUSCAN_OBJECT_TYPE_OBJECT ->
  deserializeFrequencyBand o = Raise.
Proof. destruct o; cbn; intros Hn; congruence. Qed.

End LoaderModel.

(** C8.  For every implementation of the object interface and every
    catalogue whose tables have a name and a set of bands, the load ends
    without an exception and yields one table per catalogue entry, in
    order, holding exactly the bands whose deserialization did not throw,
    in order: a band that throws is dropped and nothing else is.  An
    entry whose [min] or [max] cannot be read is such a band. *)
Theorem deserializeFATs_skips_throwing_bands (Object : Type)
    (I : SuscanObject Object) (catalog : list Object)
    (descr : list (string * Object)) :
  Forall2 (fun p nb => BandPlan.table_of p nb.1 nb.2) catalog descr ->
  BandPlan.deserializeFATs catalog []
  = (map (fun nb => Some {| fat_name := nb.1;
                            fat_bands := BandPlan.good_bands nb.2 |})
         descr, false)
  /\ (forall nb band, nb ∈ descr ->
        (band ∈ BandPlan.good_bands nb.2
         <-> exists i, (i < obj_length nb.2)%nat
               /\ obj_at nb.2 i ≫= BandPlan.deserializeFrequencyBand
                  = Return band))
  /\ (forall entry,
        get_float entry "min" 0%Q = Raise
        \/ (exists mn, get_float entry "min" 0%Q = Return mn
                       /\ get_float entry "max" 0%Q = Raise) ->
        try_catch (BandPlan.deserializeFrequencyBand entry) = None).
Proof.
  intros Hwf. split; [|split].
  - unfold BandPlan.deserializeFATs. cbn [length Nat.eqb].
    exact (load_tables_spec catalog descr [] Hwf).
  - intros nb band _. apply good_bands_elem.
  - intros entry [Hmin|(mn & Hmin & Hmax)];
      unfold BandPlan.deserializeFrequencyBand; rewrite Hmin;
      [reflexivity|]. cbn [mbind except_bind]. rewrite Hmax. reflexivity.
Qed.

Lemma deserializeFATs_skips_throwing_bands_witness :
  BandPlan.deserializeFATs
    [Examples.table "ITU" [Examples.band_no_min; Examples.band_full];
     Examples.table "Local" [Examples.band_broken; Examples.band_full]] []
  = ([Some {| fat_name := "ITU";
              fat_bands :=
                [{| band_min := 100; band_max := 200; band_primary := "FIXED";
                    band_secondary := ""; band_footnotes := "";
                    band_color := "#1f1f1f" |}] |};
      Some {| fat_name := "Local";
              fat_bands :=
                [{| band_min := 100; band_max := 200; band_primary := "FIXED";
                    band_secondary := ""; band_footnotes := "";
                    band_color := "#1f1f1f" |}] |}],
     false).
Proof.
  refine (proj1 (deserializeFATs_skips_throwing_bands
                   ObjectModel.Object ObjectModel.model _
                   [("ITU", ObjectModel.OSet
                              [Examples.band_no_min; Examples.band_full]);
                    ("Local", ObjectModel.OSet
                                [Examples.band_broken; Examples.band_full])]
                   _)).
  repeat constructor; cbn; eexists; split; reflexivity.
Defined.

Example load_drops_broken_band :
  BandPlan.deserializeFATs
    [Examples.table "ITU" [Examples.band_full; Examples.band_broken];
     Examples.table "Local" [Examples.band_broken; Examples.band_full]] []
  = ([Some {| fat_name := "ITU";
              fat_bands :=
                [{| band_min := 100; band_max := 200; band_primary := "FIXED";
                    band_secondary := ""; band_footnotes := "";
                    band_color := "#1f1f1f" |}] |};
      Some {| fat_name := "Local";
              fat_bands :=
                [{| band_min := 100; band_max := 200; band_primary := "FIXED";
                    band_secondary := ""; band_footnotes := "";
                    band_color := "#1f1f1f" |}] |}],
     false).
Proof. reflexivity. Qed.

(** In the object model the entry without [min] is left out and the
    complete entry next to it is loaded. *)
Example load_skips_band_without_min :
  ObjectModel.member "min"
    [("max", ObjectModel.OField "300"); ("primary", ObjectModel.OField "MOBILE")]
  = None
  /\ BandPlan.deserializeFATs
       [Examples.table "ITU" [Examples.band_no_min; Examples.band_full]] []
     = ([Some {| fat_name := "ITU";
                 fat_bands :=
                   [{| band_min := 100; band_max := 200;
                       band_primary := "FIXED"; band_secondary := "";
                       band_footnotes := ""; band_color := "#1f1f1f" |}] |}],
        false).
Proof. split; reflexivity. Qed.

(** A band edge is the [float] nearest to the number written: above
    [2 ^ 24] not every whole number is one. *)
Example band_edge_is_a_float :
  BandPlan.deserializeFrequencyBand
    (ObjectModel.OObject [("min", ObjectModel.OField "16777217");
                          ("max", ObjectModel.OField "144000001")])
  = Return {| band_min := 16777216; band_max := 144000000;
              band_primary := ""; band_secondary := "";
              band_footnotes := ""; band_color := "#1f1f1f" |}.
Proof. reflexivity. Qed.

(** A table without a set of bands aborts the load: the exception leaves
    the loop, with the tables read so far and the new one in place. *)
Example load_bad_table_aborts :
  BandPlan.deserializeFATs
    [Examples.table "ITU" [Examples.band_full];
     ObjectModel.OObject [("name", ObjectModel.OField "Broken")];
     Examples.table "Local" [Examples.band_full]] []
  = ([Some {| fat_name := "ITU";
              fat_bands :=
                [{| band_min := 100; band_max := 200; band_primary := "FIXED";
                    band_secondary := ""; band_footnotes := "";
                    band_color := "#1f1f1f" |}] |};
      Some {| fat_name := "Broken"; fat_bands := [] |}],
     true).
Proof. reflexivity. Qed.

(** * Further properties *)

(** ** Zoom, pan and the scan range together *)

Section ZoomPanRange.
Import Dialog WaterfallOps.

Lemma getZoomRange_no_overflow_witness :
  in_qint64 (zoomCenter (Examples.view 10 0 40) - 40 ÷ 2)
  /\ in_qint64 (zoomCenter (Examples.view 10 0 40) + 40 ÷ 2)
  /\ exists wmin wmax noHop,
       getZoomRange (Examples.dialog 0%Q 100%Q (Some (Examples.view 10 0 40)))
       = Some (wmin, wmax, noHop)
       /\ in_qint64 wmin /\ in_qint64 wmax /\ in_qint64 (wmax - wmin).
Proof.
  apply (getZoomRange_no_overflow
           (Examples.dialog 0%Q 100%Q (Some (Examples.view 10 0 40)))
           (Examples.view 10 0 40) 0 100 eq_refl eq_refl eq_refl);
    cbn; lia.
Defined.

Lemma pan_window_is_zoom_window_witness :
  exists min max noHop,
    getZoomRange
      (set_waterfall
         (Some (setSpanFreq (m_currBw Examples.zoomed_stored)
                  (setFftCenterFreq 0 (Examples.view 500 (-490) 51))))
         Examples.zoomed_stored)
    = Some (min, max, noHop)
    /\ onNewFftCenterFreq Examples.zoomed_stored 0
       = Some (Examples.zoomed_stored,
               [detailChanged min max (m_fixedFreqMode Examples.zoomed_stored)]).
Proof.
  exact (pan_window_is_zoom_window Examples.zoomed_stored
           (Examples.view 500 (-490) 51) 0 eq_refl eq_refl).
Defined.

(** The window of a pan, for a whole range [a .. b] and a stored width
    that fits in it. *)
Lemma pan_window_in_range (s : PanoramicDialog) (w : Waterfall) (a b : Z)
    (freq : qint64) :
  m_running s = true ->
  m_waterfall s = Some w ->
  getMinFreq s = inject_Z a ->
  getMaxFreq s = inject_Z b ->
  0 <= m_currBw s <= b - a ->
  exists mn mx,
    onNewFftCenterFreq s freq
    = Some (s, [detailChanged mn mx (m_fixedFreqMode s)])
    /\ a <= mn /\ mx <= b /\ 0 <= mx - mn <= m_currBw s.
Proof.
  intros Hr Hw Ha Hb Hbw.
  unfold onNewFftCenterFreq. rewrite Hr, Hw.
  cbn [negb mbind option_bind].
  rewrite Ha, Hb. unfold of_qint64. rewrite !Qle_bool_inject, !to_qint64_inject.
  set (fc := freq + wf_centerFreq w).
  set (span := m_currBw s) in *.
  pose proof (quot2_bounds span (proj1 Hbw)) as Hq.
  destruct (Z.leb_spec (fc - span ÷ 2) a) as [Hl|Hl];
    destruct (Z.leb_spec b (fc + span ÷ 2)) as [Hrr|Hrr]; cbn;
    do 2 eexists; (split; [reflexivity|]); lia.
Qed.

(** What a zoom leaves behind, for a whole range [a .. b] and a span that
    fits in it. *)
Lemma onNewZoomLevel_width (s : PanoramicDialog) (w : Waterfall) (a b : Z) :
  m_waterfall s = Some w ->
  getMinFreq s = inject_Z a ->
  getMaxFreq s = inject_Z b ->
  0 <= wf_spanFreq w <= b - a ->
  exists s1 out1,
    onNewZoomLevel s = Some (s1, out1)
    /\ 0 <= m_currBw s1 <= b - a
    /\ m_running s1 = m_running s
    /\ m_waterfall s1 = Some w
    /\ getMinFreq s1 = inject_Z a
    /\ getMaxFreq s1 = inject_Z b.
Proof.
  intros Hw Ha Hb Hsp.
  unfold onNewZoomLevel, getZoomRange. rewrite Hw.
  cbn [mbind option_bind].
  rewrite Ha, Hb. unfold of_qint64. rewrite !Qle_bool_inject, !to_qint64_inject.
  set (fc := wf_centerFreq w + wf_fftCenterFreq w).
  set (span := wf_spanFreq w) in *.
  pose proof (quot2_bounds span (proj1 Hsp)) as Hq.
  destruct (Z.leb_spec (fc - span ÷ 2) a) as [Hl|Hl];
    destruct (Z.leb_spec b (fc + span ÷ 2)) as [Hrr|Hrr]; cbn;
    do 2 eexists; (split; [reflexivity|]); cbn;
    (split; [lia|]); repeat split; assumption.
Qed.



(** X5.  Running [adjustRanges] a second time changes nothing. *)
Theorem adjustRanges_idempotent (s : PanoramicDialog) :
  adjustRanges (adjustRanges s) = adjustRanges s.
Proof.
  destruct (Qgt_bool (ui_rangeStartSpin s) (ui_rangeEndSpin s)) eqn:Hc.
  - rewrite (adjustRanges_reversed s (ui_rangeEndSpin s) (ui_rangeStartSpin s)
               eq_refl eq_refl Hc).
    rewrite (adjustRanges_in_order
               (adjusted (ui_rangeEndSpin s) (ui_rangeStartSpin s) s)
               (ui_rangeEndSpin s) (ui_rangeStartSpin s)
               (proj1 (adjusted_range _ _ s)) (proj2 (adjusted_range _ _ s))
               (Qgt_bool_asym _ _ Hc)).
    apply adjusted_absorbs.
  - rewrite (adjustRanges_in_order s (ui_rangeStartSpin s) (ui_rangeEndSpin s)
               eq_refl eq_refl Hc).
    rewrite (adjustRanges_in_order
               (adjusted (ui_rangeStartSpin s) (ui_rangeEndSpin s) s)
               (ui_rangeStartSpin s) (ui_rangeEndSpin s)
               (proj1 (adjusted_range _ _ s)) (proj2 (adjusted_range _ _ s))
               Hc).
    apply adjusted_absorbs.
Qed.

Lemma Qminus_inject (a b : Z) :
  to_qint64 (inject_Z b - inject_Z a)%Q = b - a.
Proof.
  unfold to_qint64, Qminus, Qplus, Qopp, inject_Z. cbn.
  rewrite Z.quot_1_r. lia.
Qed.

Lemma Qplus_inject (a b : Z) :
  to_qint64 (inject_Z b + inject_Z a)%Q = b + a.
Proof.
  unfold to_qint64, Qplus, inject_Z. cbn. rewrite Z.quot_1_r. lia.
Qed.

(** The window of the whole view on a whole range [a <= b]: the range
    itself, tested on its full width. *)
Lemma zoomWindow_whole_range (a b minBw : Z) (relBw : SUFLOAT) :
  a <= b ->
  zoomWindow (inject_Z a) (inject_Z b) minBw relBw
    (to_qint64 (inject_Z b + inject_Z a)%Q ÷ 2 + 0)
    (to_qint64 (inject_Z b - inject_Z a)%Q)
  = (a, b,
     Qle_bool (to_float (inject_Z (b - a)))
              (to_float (to_float (inject_Z minBw) * relBw))).
Proof.
  intros Hab. unfold zoomWindow.
  rewrite Qminus_inject, Qplus_inject.
  unfold of_qint64. rewrite !Qle_bool_inject, !to_qint64_inject.
  rewrite Z.add_0_r.
  set (c := (b + a) ÷ 2). set (h := (b - a) ÷ 2).
  assert (b - a - 1 <= 2 * h <= b - a) as Hh
    by (subst h; apply quot2_bounds; lia).
  assert (b + a - 1 <= 2 * c <= b + a + 1) as Hcq.
  { subst c. Z.to_euclidean_division_equations. lia. }
  destruct (Z.leb_spec (c - h) a) as [Hl|Hl];
    destruct (Z.leb_spec b (c + h)) as [Hr|Hr]; cbn [orb andb negb];
    try (exfalso; lia);
    repeat f_equal; lia.
Qed.



(** The test is the one the machine makes.  The slider at 53 gives the
    [float] next below 0.53, so a range of 53 Hz is above a threshold of
    [100 * 0.53]; and 20000001 Hz is no [float], so that a range of that
    width passes a threshold of 20000000 Hz. *)
Example fixed_mode_test_is_in_float :
  (getRelBw (set_relBwSlider 53 (Examples.dialog 0%Q 53%Q None))
   == 8891924 # 16777216)%Q
  /\ getZoomRange
       (adjustRanges
          (set_relBwSlider 53
             (Examples.dialog 0%Q 53%Q (Some (Examples.view 0 0 0)))))
     = Some (0, 53, false)
  /\ Qle_bool 53 (100 * (53 / 100)) = true
  /\ getZoomRange
       (adjustRanges
          (set_relBwSlider 100
             (setMinBwForZoom 20000000
                (Examples.dialog 0%Q 20000001%Q
                   (Some (Examples.view 0 0 0))))))
     = Some (0, 20000001, true)
  /\ Qle_bool 20000001 (20000000 * (100 / 100)) = false.
Proof. repeat split; reflexivity. Qed.

Lemma range_edit_keeps_order_witness :
  exists s' out,
    step Examples.fed (EvRangeStart 300%Q) = Some (s', out)
    /\ (getMinFreq s' <= getMaxFreq s')%Q.
Proof.
  apply (range_edit_keeps_order Examples.fed (EvRangeStart 300%Q) eq_refl).
  cbn. discriminate.
Defined.

(** The edit that reverses the range of the running dialog: the range is
    swapped to [100 .. 300].  The zoom slot has run three times on the
    way, from the two [setValue] calls of the swap (on [100 .. 100] and
    on [100 .. 300]) and from the run that made them. *)
Example range_edit_swaps_and_emits :
  step Examples.fed (EvRangeStart 300%Q)
  = Some (Dialog.adjusted 100%Q 300%Q Examples.fed,
          [detailChanged 100 100 true; detailChanged 100 300 false;
           detailChanged 100 300 false]).
Proof. reflexivity. Qed.

End ZoomPanRange.

(** ** Frequency units *)

Section Units.
Import Dialog.

(** The opposite of a [qint64] is the exact one, but for the least
    value, which is its own opposite. *)
Lemma wrap_qint64_opp (freq : qint64) :
  in_qint64 freq ->
  wrap_qint64 (- freq) = (if freq =? - 2 ^ 63 then freq else - freq).
Proof.
  unfold in_qint64, wrap_qint64. intros Hr.
  destruct (Z.eqb_spec freq (- 2 ^ 63)) as [->|Hn]; [reflexivity|].
  change (2 ^ 63) with 9223372036854775808 in *.
  change (2 ^ 64) with 18446744073709551616.
  rewrite Z.mod_small by lia. lia.
Qed.

(** X8.  For every [qint64], [getFrequencyUnits] gives one of 1, 10^3,
    10^6, 10^9, never above the magnitude (1 below 1 Hz).  But for the
    least [qint64] it is the same for a frequency and its opposite, and
    the magnitude is less than a thousand units unless the unit is
    already 10^9.  The opposite of the least [qint64] is that value
    again, still negative, and its unit is 1. *)
Theorem getFrequencyUnits_scale (freq : qint64) :
  in_qint64 freq ->
  In (getFrequencyUnits freq) [1; 1000; 1000000; 1000000000]
  /\ getFrequencyUnits freq <= Z.max 1 (Z.abs freq)
  /\ (freq <> - 2 ^ 63 ->
      getFrequencyUnits (- freq) = getFrequencyUnits freq
      /\ (Z.abs freq < 1000 * getFrequencyUnits freq
          \/ getFrequencyUnits freq = 1000000000))
  /\ (freq = - 2 ^ 63 -> getFrequencyUnits freq = 1).
Proof.
  intros Hr.
  destruct (Z.eq_dec freq (- 2 ^ 63)) as [->|Hn].
  { assert (getFrequencyUnits (- 2 ^ 63) = 1) as E by reflexivity.
    rewrite E. split; [left; reflexivity|].
    split; [apply Z.le_max_l|].
    split; [intros Hx; exfalso; apply Hx; reflexivity|reflexivity]. }
  assert (in_qint64 (- freq)) as Hopp.
  { unfold in_qint64 in *. change (2 ^ 63) with 9223372036854775808 in *.
    lia. }
  assert (- freq <> - 2 ^ 63) as Hn'.
  { unfold in_qint64 in *. change (2 ^ 63) with 9223372036854775808 in *.
    lia. }
  unfold getFrequencyUnits.
  rewrite (wrap_qint64_opp freq Hr), (wrap_qint64_opp (- freq) Hopp).
  rewrite Z.opp_involutive.
  destruct (Z.eqb_spec freq (- 2 ^ 63)) as [He|_]; [contradiction|].
  destruct (Z.eqb_spec (- freq) (- 2 ^ 63)) as [He|_]; [contradiction|].
  destruct (Z.ltb_spec freq 0); destruct (Z.ltb_spec (- freq) 0);
    repeat match goal with
           | |- context [?x <? ?y] => destruct (Z.ltb_spec x y)
           end; cbn [In]; repeat split; try lia; intros; lia.
Qed.

Lemma getFrequencyUnits_scale_witness :
  In (getFrequencyUnits (- 433920000)) [1; 1000; 1000000; 1000000000]
  /\ getFrequencyUnits (- 433920000) <= Z.max 1 (Z.abs (- 433920000))
  /\ (- 433920000 <> - 2 ^ 63 ->
      getFrequencyUnits (- - 433920000) = getFrequencyUnits (- 433920000)
      /\ (Z.abs (- 433920000) < 1000 * getFrequencyUnits (- 433920000)
          \/ getFrequencyUnits (- 433920000) = 1000000000))
  /\ (- 433920000 = - 2 ^ 63 -> getFrequencyUnits (- 433920000) = 1).
Proof.
  apply (getFrequencyUnits_scale (- 433920000)).
  unfold in_qint64. cbn. lia.
Defined.

(** At the least [qint64] the negation overflows and the unit is 1,
    while its opposite in the integers would have the unit 10^9. *)
Example getFrequencyUnits_least :
  getFrequencyUnits (- 2 ^ 63) = 1
  /\ getFrequencyUnits (- 2 ^ 63 + 1) = 1000000000
  /\ getFrequencyUnits (2 ^ 63 - 1) = 1000000000.
Proof. repeat split; reflexivity. Qed.

End Units.

(** ** Frames of a scan *)

Section Scan.
Import Dialog WaterfallOps.

Lemma run_feeds (frames : list (qint64 * qint64 * list SUFLOAT))
    (s : PanoramicDialog) (w : Waterfall) :
  m_waterfall s = Some w ->
  exists s',
    run s (map (fun f : qint64 * qint64 * list SUFLOAT =>
                  EvFeed f.1.1 f.1.2 f.2) frames) = Some (s', [])
    /\ m_frames s' = m_frames s + Z.of_nat (length frames)
    /\ m_running s' = m_running s
    /\ m_saved s'
       = match last frames with
         | Some f => {| start := f.1.1; end_ := f.1.2; data := f.2 |}
         | None => m_saved s
         end
    /\ ui_exportButton s'
       = match frames with [] => ui_exportButton s | _ => true end.
Proof.
  revert s w. induction frames as [|f frames IH]; intros s w Hw.
  - exists s. cbn. repeat split; lia.
  - destruct (feed_effect s w f.1.1 f.1.2 f.2 Hw)
      as (s1 & Hf & Hs & _ & _ & Hn & He & Hw1).
    destruct (IH s1 _ Hw1) as (s' & Hrun & Hn' & Hr' & Hs' & He').
    exists s'. cbn [map run step]. rewrite Hf. cbn. rewrite Hrun. cbn.
    split; [reflexivity|]. split; [rewrite Hn', Hn; lia|].
    split; [rewrite Hr'; apply (feed_frame _ _ _ _ _ Hf)|].
    split.
    + rewrite Hs'. destruct frames as [|g frames]; [exact Hs|].
      change (last (f :: g :: frames)) with (last (g :: frames)).
      destruct (last (g :: frames)) eqn:Hl; [reflexivity|].
      apply last_None in Hl. discriminate.
    + rewrite He'. destruct frames; [exact He|reflexivity].
Qed.

(** X9.  Starting a scan on an idle dialog and feeding it frames leaves
    the frame counter at the number of frames fed, whatever it was
    before, and the saved spectrum at the last frame; with no frame yet,
    the spectrum saved by the previous scan is still the one to export. *)
Theorem scan_counts_frames (s : PanoramicDialog) (w : Waterfall)
    (frames : list (qint64 * qint64 * list SUFLOAT)) :
  m_running s = false ->
  m_waterfall s = Some w ->
  exists s',
    run s (EvSetRunning true
           :: map (fun f : qint64 * qint64 * list SUFLOAT =>
                     EvFeed f.1.1 f.1.2 f.2) frames) = Some (s', [])
    /\ m_running s' = true
    /\ m_frames s' = Z.of_nat (length frames)
    /\ m_saved s'
       = match last frames with
         | Some f => {| start := f.1.1; end_ := f.1.2; data := f.2 |}
         | None => m_saved s
         end
    /\ ui_exportButton s'
       = match frames with [] => ui_exportButton s | _ => true end.
Proof.
  intros Hr Hw.
  assert (m_waterfall (setRunning true s)
          = Some (setRunningState true w)) as Hw1.
  { unfold setRunning. rewrite Hr. cbn. rewrite Hw. reflexivity. }
  destruct (run_feeds frames (setRunning true s) _ Hw1)
    as (s' & Hrun & Hn & Hr' & Hs & He).
  exists s'. cbn [run step]. cbn. rewrite Hrun. cbn.
  split; [reflexivity|].
  assert (m_frames (setRunning true s) = 0
          /\ m_running (setRunning true s) = true
          /\ m_saved (setRunning true s) = m_saved s
          /\ ui_exportButton (setRunning true s) = ui_exportButton s)
    as (H0 & H1 & H2 & H3).
  { unfold setRunning. rewrite Hr. cbn. rewrite Hw. cbn.
    repeat split; reflexivity. }
  split; [congruence|]. split; [rewrite Hn, H0; lia|].
  split; [rewrite Hs, H2; reflexivity|rewrite He, H3; reflexivity].
Qed.

Lemma scan_counts_frames_witness :
  exists s',
    run (set_running false Examples.fed)
        (EvSetRunning true
         :: map (fun f : qint64 * qint64 * list SUFLOAT =>
                   EvFeed f.1.1 f.1.2 f.2)
                [(10, 20, [1%Q]); (20, 30, [2%Q; 3%Q])]) = Some (s', [])
    /\ m_running s' = true
    /\ m_frames s' = 2
    /\ m_saved s' = {| start := 20; end_ := 30; data := [2%Q; 3%Q] |}
    /\ ui_exportButton s' = true.
Proof.
  exact (scan_counts_frames (set_running false Examples.fed)
           (Examples.view 50 0 100)
           [(10, 20, [1%Q]); (20, 30, [2%Q; 3%Q])] eq_refl eq_refl).
Defined.

End Scan.

(** ** The export dialog *)

Section ExportLoop.
Import SavedSpectrumOps Dialog.
Variable show_float : nat -> SUFLOAT -> string.

(** X10.  [onExport] warns once for every path that does not open and
    asks again; it ends at the first path that opens, which then holds
    the spectrum, or at the first dismissed dialog, with no file written
    at all.  Answers after that are never looked at. *)
Theorem onExport_stops (s : PanoramicDialog) (fs : FileSystem)
    (bad : list string) (good : string) (rest : list (option string)) :
  Forall (fun p => can_open fs p = false) bad ->
  can_open fs good = true ->
  onExport show_float (map Some bad ++ Some good :: rest) s fs
  = (write_file fs good (of_text (export_stream show_float (m_saved s))),
     length bad)
  /\ onExport show_float (map Some bad ++ None :: rest) s fs
     = (fs, length bad).
Proof.
  intros Hbad Hgood. induction Hbad as [|p bad Hp _ IH].
  - split; [apply (onExport_first_writable show_float); exact Hgood|].
    reflexivity.
  - destruct IH as [IH1 IH2].
    cbn [map app length]. rewrite !(onExport_retry show_float) by exact Hp.
    rewrite IH1, IH2. split; reflexivity.
Qed.

(** X11.  A successful export replaces what the file held, touches no
    other file and keeps the set of unwritable paths: exporting again to
    the same path leaves the file system as the last export alone would. *)
Theorem exportToFile_overwrites (sp sp' : SavedSpectrum) (path : string)
    (fs : FileSystem) :
  can_open fs path = true ->
  snd (exportToFile show_float sp' path
         (snd (exportToFile show_float sp path fs)))
  = snd (exportToFile show_float sp' path fs)
  /\ fs_locked (snd (exportToFile show_float sp path fs)) = fs_locked fs
  /\ forall other, other <> path ->
       fs_files (snd (exportToFile show_float sp path fs)) !! other
       = fs_files fs !! other.
Proof.
  intros Hc. unfold exportToFile. rewrite Hc. cbn [negb snd].
  assert (can_open (write_file fs path
                      (of_text (export_stream show_float sp))) path = true)
    as Hc' by exact Hc.
  rewrite Hc'. cbn [negb snd]. split.
  - unfold write_file. cbn [fs_files fs_locked].
    rewrite insert_insert_eq. reflexivity.
  - split; [reflexivity|]. intros other Hne. cbn.
    apply lookup_insert_ne. congruence.
Qed.

End ExportLoop.

Lemma onExport_stops_witness :
  Dialog.onExport Examples.show_whole
    (map Some ["/spectrum.m"] ++ Some "/tmp/ok.m" :: [None]) Examples.fed
    Examples.locked_fs
  = (write_file Examples.locked_fs "/tmp/ok.m"
       (of_text (SavedSpectrumOps.export_stream Examples.show_whole
                   (m_saved Examples.fed))),
     1%nat)
  /\ Dialog.onExport Examples.show_whole
       (map Some ["/spectrum.m"] ++ None :: [None]) Examples.fed
       Examples.locked_fs
     = (Examples.locked_fs, 1%nat).
Proof.
  apply (onExport_stops Examples.show_whole Examples.fed Examples.locked_fs
           ["/spectrum.m"] "/tmp/ok.m" [None]).
  - constructor; [vm_compute; reflexivity|constructor].
  - vm_compute. reflexivity.
Defined.

Lemma exportToFile_overwrites_witness :
  snd (SavedSpectrumOps.exportToFile Examples.show_whole
         (m_saved Examples.fed) "/spectrum.m"
         (snd (SavedSpectrumOps.exportToFile Examples.show_whole
                 (m_saved (Examples.dialog 0%Q 100%Q None)) "/spectrum.m"
                 Examples.empty_fs)))
  = snd (SavedSpectrumOps.exportToFile Examples.show_whole
           (m_saved Examples.fed) "/spectrum.m" Examples.empty_fs).
Proof.
  exact (proj1 (exportToFile_overwrites Examples.show_whole
                  (m_saved (Examples.dialog 0%Q 100%Q None))
                  (m_saved Examples.fed) "/spectrum.m" Examples.empty_fs
                  eq_refl)).
Defined.

(** ** Gain controls *)

Section GainControls.
Import Controls.

Lemma getGain_app (l1 l2 : list DeviceGain) (name : string) :
  getGain (l1 ++ l2) name
  = match lookupGain l1 name with
    | Some p => dg_gain p
    | None => getGain l2 name
    end.
Proof.
  induction l1 as [|p l1 IH]; cbn; [reflexivity|].
  destruct (String.eqb (dg_name p) name); [reflexivity|exact IH].
Qed.

(** The control [refreshGains] builds for one gain of the device. *)
Lemma refreshGains_loop_app (cfg : PanoramicDialogConfig) (driver : string)
    (descs : list GainDescription) (controls : list DeviceGain) :
  refreshGains_loop cfg driver descs controls
  = controls
    ++ map (fun p =>
              {| dg_name := gd_name p;
                 dg_gain :=
                   if Config.hasGain cfg driver (gd_name p)
                   then Config.getGain cfg driver (gd_name p)
                   else gd_default p |}) descs.
Proof.
  revert controls. induction descs as [|p descs IH]; intros controls; cbn.
  - rewrite app_nil_r. reflexivity.
  - rewrite IH, <- app_assoc. cbn.
    destruct (Config.hasGain cfg driver (gd_name p)); reflexivity.
Qed.

Lemma clearGains_empty (controls : list DeviceGain) : clearGains controls = [].
Proof. destruct controls; reflexivity. Qed.

Lemma refreshGains_getGain (cfg : PanoramicDialogConfig) (device : SourceDevice)
    (old : list DeviceGain) (name : string) :
  getGain (refreshGains cfg device old) name
  = match find (fun p => String.eqb (gd_name p) name) (sd_gains device) with
    | Some p =>
        if Config.hasGain cfg (dev_driver (sd_device device)) name
        then Config.getGain cfg (dev_driver (sd_device device)) name
        else gd_default p
    | None => 0%Q
    end.
Proof.
  unfold refreshGains. rewrite clearGains_empty, refreshGains_loop_app.
  cbn [app]. induction (sd_gains device) as [|p descs IH]; cbn; [reflexivity|].
  destruct (String.eqb_spec (gd_name p) name) as [->|Hne];
    [reflexivity|exact IH].
Qed.

(** X12.  [refreshGains] drops the controls of the previous device and
    makes one control per gain of the new one, in order; what the dialog
    then reads for a gain name is the value stored in the configuration
    for this driver when there is one, the default of the first gain of
    that name otherwise, and [0] for a name the device does not have. *)
Theorem refreshGains_values (cfg : PanoramicDialogConfig)
    (device : SourceDevice) (old : list DeviceGain) (name : string) :
  map dg_name (refreshGains cfg device old) = map gd_name (sd_gains device)
  /\ getGain (refreshGains cfg device old) name
     = match find (fun p => String.eqb (gd_name p) name) (sd_gains device) with
       | Some p =>
           if Config.hasGain cfg (dev_driver (sd_device device)) name
           then Config.getGain cfg (dev_driver (sd_device device)) name
           else gd_default p
       | None => 0%Q
       end.
Proof.
  split; [|apply refreshGains_getGain].
  unfold refreshGains. rewrite clearGains_empty, refreshGains_loop_app.
  cbn [app]. rewrite map_map. reflexivity.
Qed.

Lemma find_name_in (name : string) (descs : list GainDescription) :
  In name (map gd_name descs) ->
  exists p, find (fun p => String.eqb (gd_name p) name) descs = Some p.
Proof.
  induction descs as [|p descs IH]; cbn; [tauto|].
  intros [E|Hin].
  - exists p. rewrite E, String.eqb_refl. reflexivity.
  - destruct (String.eqb (gd_name p) name); [eauto|apply IH; exact Hin].
Qed.

Lemma fullName_same_device (d s s' : string) :
  Config.fullName d s = Config.fullName d s' -> s = s'.
Proof.
  unfold Config.fullName. intros E.
  apply (inj (String.app "gain.")) in E.
  apply (inj (String.app d)) in E.
  apply (inj (String.app ".")) in E. exact E.
Qed.

(** X13.  A gain changed by the user is what the control shows when the
    gains of the same device are refreshed, and the change touches no
    other gain of that device.  With no device selected the
    configuration is left alone; the signal is emitted in both cases. *)
Theorem onGainChanged_then_refreshGains (cfg : PanoramicDialogConfig)
    (device : SourceDevice) (old : list DeviceGain) (name : string)
    (val : SUFLOAT) :
  In name (map gd_name (sd_gains device)) ->
  getGain (refreshGains (onGainChanged (Some device) cfg name val).1
             device old) name = val
  /\ (forall other, other <> name ->
        getGain (refreshGains (onGainChanged (Some device) cfg name val).1
                   device old) other
        = getGain (refreshGains cfg device old) other)
  /\ (onGainChanged (Some device) cfg name val).2 = [gainChanged name val]
  /\ onGainChanged None cfg name val = (cfg, [gainChanged name val]).
Proof.
  intros Hin. cbn [onGainChanged fst snd].
  split; [|split; [|split; reflexivity]].
  - rewrite refreshGains_getGain.
    destruct (find_name_in name _ Hin) as (p & ->).
    unfold Config.hasGain, Config.getGain, Config.setGain. cbn [gains].
    rewrite lookup_insert_eq. reflexivity.
  - intros other Hne. rewrite !refreshGains_getGain.
    unfold Config.hasGain, Config.getGain, Config.setGain. cbn [gains].
    rewrite lookup_insert_ne; [reflexivity|].
    intros E. apply fullName_same_device in E. congruence.
Qed.

Lemma onGainChanged_then_refreshGains_witness :
  getGain (refreshGains
             (onGainChanged (Some Scenarios.hackrf) Config.fresh "VGA" 30%Q).1
             Scenarios.hackrf []) "VGA" = 30%Q.
Proof.
  apply (onGainChanged_then_refreshGains Config.fresh Scenarios.hackrf []
           "VGA" 30%Q).
  cbn. tauto.
Defined.

(** X19.  [setGain] never removes a gain: what was present is still
    present after any write, and writing one pair twice is writing the
    last value once. *)
Theorem setGain_keeps_present (c : PanoramicDialogConfig) (d s d' s' : string)
    (v w : SUFLOAT) :
  (Config.hasGain c d s = true ->
   Config.hasGain (Config.setGain c d' s' w) d s = true)
  /\ Config.setGain (Config.setGain c d s v) d s w = Config.setGain c d s w.
Proof.
  split.
  - unfold Config.hasGain, Config.setGain. cbn [gains].
    intros Hp. apply bool_decide_eq_true in Hp. apply bool_decide_eq_true.
    destruct (decide (Config.fullName d' s' = Config.fullName d s)) as [E|Hne].
    + rewrite E, lookup_insert_eq. eauto.
    + rewrite lookup_insert_ne by exact Hne. exact Hp.
  - unfold Config.setGain. cbn [gains]. rewrite insert_insert_eq. reflexivity.
Qed.

End GainControls.

(** ** The device list *)

Section DeviceList.
Import Controls.

Lemma populateDeviceCombo_loop_combo (devices : list SourceDevice)
    (combo : list string) (m : gmap string SourceDevice) :
  (populateDeviceCombo_loop devices combo m).1
  = combo
    ++ map sd_desc
         (List.filter (fun i => Dialog.Qgt_bool (dev_maxFreq (sd_device i)) 0
                                && sd_available i) devices).
Proof.
  revert combo m. induction devices as [|i devices IH]; intros combo m; cbn.
  - rewrite app_nil_r. reflexivity.
  - destruct (Dialog.Qgt_bool (dev_maxFreq (sd_device i)) 0 && sd_available i).
    + rewrite IH, <- app_assoc. reflexivity.
    + apply IH.
Qed.

Lemma populateDeviceCombo_loop_map (devices : list SourceDevice)
    (combo : list string) (m : gmap string SourceDevice) (name : string) :
  (forall d, m !! name = Some d -> sd_desc d = name) ->
  match (populateDeviceCombo_loop devices combo m).2 !! name with
  | Some d =>
      sd_desc d = name
      /\ (m !! name = Some d
          \/ (In d devices
              /\ Dialog.Qgt_bool (dev_maxFreq (sd_device d)) 0
                 && sd_available d = true))
  | None =>
      m !! name = None
      /\ ~ In name
           (map sd_desc
              (List.filter
                 (fun i => Dialog.Qgt_bool (dev_maxFreq (sd_device i)) 0
                           && sd_available i) devices))
  end.
Proof.
  revert combo m. induction devices as [|i devices IH]; intros combo m Hm.
  - cbn. destruct (m !! name) as [d|] eqn:E; [|tauto].
    split; [apply Hm; reflexivity|left; reflexivity].
  - cbn [populateDeviceCombo_loop List.filter].
    destruct (Dialog.Qgt_bool (dev_maxFreq (sd_device i)) 0 && sd_available i)
      eqn:Hu.
    + specialize (IH (combo ++ [sd_desc i]) (<[sd_desc i := i]> m)).
      destruct ((populateDeviceCombo_loop devices (combo ++ [sd_desc i])
                   (<[sd_desc i:=i]> m)).2 !! name) as [d|].
      * destruct IH as [Hd Hor].
        { intros d0 Hd0. destruct (decide (sd_desc i = name)) as [E|Hne].
          - rewrite E, lookup_insert_eq in Hd0. congruence.
          - rewrite lookup_insert_ne in Hd0 by exact Hne. apply Hm, Hd0. }
        split; [exact Hd|].
        destruct Hor as [Hl|[Hin Hud]].
        -- destruct (decide (sd_desc i = name)) as [E|Hne].
           ++ rewrite E, lookup_insert_eq in Hl. inversion Hl; subst.
              right. split; [left; reflexivity|exact Hu].
           ++ rewrite lookup_insert_ne in Hl by exact Hne. left. exact Hl.
        -- right. split; [right; exact Hin|exact Hud].
      * destruct IH as [Hn Hnot].
        { intros d0 Hd0. destruct (decide (sd_desc i = name)) as [E|Hne].
          - rewrite E, lookup_insert_eq in Hd0. congruence.
          - rewrite lookup_insert_ne in Hd0 by exact Hne. apply Hm, Hd0. }
        destruct (decide (sd_desc i = name)) as [E|Hne].
        -- rewrite E, lookup_insert_eq in Hn. discriminate.
        -- rewrite lookup_insert_ne in Hn by exact Hne.
           split; [exact Hn|]. cbn. intros [E|Hin]; [congruence|tauto].
    + specialize (IH combo m Hm).
      destruct ((populateDeviceCombo_loop devices combo m).2 !! name) as [d|];
        [|exact IH].
      destruct IH as [Hd [Hl|[Hin Hud]]]; (split; [exact Hd|]);
        [left; exact Hl|right; split; [right; exact Hin|exact Hud]].
Qed.

(** X14.  After [populateDeviceCombo] the combo box lists, in order, the
    descriptions of the devices that are available and have a positive
    maximum frequency, and nothing else; every item resolves through
    [getSelectedDevice] to such a device with that description, and a
    text that is not an item resolves to none. *)
Theorem populateDeviceCombo_items (devices : list SourceDevice) :
  (populateDeviceCombo devices).1
  = map sd_desc
      (List.filter (fun i => Dialog.Qgt_bool (dev_maxFreq (sd_device i)) 0
                             && sd_available i) devices)
  /\ (forall name, In name (populateDeviceCombo devices).1 ->
        exists d,
          getSelectedDevice name (populateDeviceCombo devices).2 = Some d
          /\ sd_desc d = name /\ In d devices
          /\ (0 < dev_maxFreq (sd_device d))%Q /\ sd_available d = true)
  /\ (forall name, ~ In name (populateDeviceCombo devices).1 ->
        getSelectedDevice name (populateDeviceCombo devices).2 = None).
Proof.
  unfold populateDeviceCombo, getSelectedDevice.
  pose proof (populateDeviceCombo_loop_combo devices [] ∅) as Hc.
  cbn [app] in Hc. split; [exact Hc|]. rewrite Hc. split.
  - intros name Hin.
    pose proof (populateDeviceCombo_loop_map devices [] ∅ name) as Hm.
    destruct ((populateDeviceCombo_loop devices [] ∅).2 !! name) as [d|].
    + destruct Hm as [Hd Hor]; [intros d0 Hd0; rewrite lookup_empty in Hd0;
                                discriminate|].
      exists d. split; [reflexivity|]. split; [exact Hd|].
      destruct Hor as [He|[Hind Hu]]; [rewrite lookup_empty in He; discriminate|].
      apply andb_true_iff in Hu. destruct Hu as [Hq Ha].
      apply Qgt_bool_true in Hq. repeat split; assumption.
    + destruct Hm as [_ Hnot]; [intros d0 Hd0; rewrite lookup_empty in Hd0;
                                discriminate|].
      contradiction.
  - intros name Hnin.
    pose proof (populateDeviceCombo_loop_map devices [] ∅ name) as Hm.
    destruct ((populateDeviceCombo_loop devices [] ∅).2 !! name) as [d|];
      [|reflexivity].
    destruct Hm as [Hd Hor]; [intros d0 Hd0; rewrite lookup_empty in Hd0;
                              discriminate|].
    destruct Hor as [He|[Hind Hu]]; [rewrite lookup_empty in He; discriminate|].
    exfalso. apply Hnin. rewrite <- Hd. apply in_map.
    apply filter_In. split; assumption.
Qed.

(** X15.  [onToggleScan] emits [start] exactly when the button is checked
    and the selected device is not the banned one; it then has dropped
    the partial spectra of the waterfall.  With the banned device it
    emits nothing, unchecks the button and leaves the waterfall alone;
    with the button unchecked it emits [stop].  The button reads [Stop]
    exactly while it is checked. *)
Theorem onToggleScan_signals (scanChecked : bool) (selectedDesc banned : string)
    (w : option Waterfall) :
  let banned_selected :=
    (0 <? String.length banned)%nat && String.eqb selectedDesc banned in
  let r := onToggleScan scanChecked selectedDesc banned w in
  (In scan_start r.2 <-> scanChecked = true /\ banned_selected = false)
  /\ (In scan_start r.2 ->
      r.1.1.1 = true
      /\ r.1.2 = WaterfallOps.clearPartialFftData <$> w
      /\ r.2 = [scan_start])
  /\ (scanChecked = true -> banned_selected = true ->
      r = (false, "Start scan", w, []))
  /\ (scanChecked = false -> r = (false, "Start scan", w, [scan_stop]))
  /\ (r.1.1.2 = "Stop" <-> r.1.1.1 = true).
Proof.
  cbv zeta. unfold onToggleScan.
  destruct scanChecked;
    destruct ((0 <? String.length banned)%nat && String.eqb selectedDesc banned);
    cbn; repeat split; try discriminate; try tauto; try reflexivity;
    intros; intuition (try discriminate; try congruence).
Qed.

End DeviceList.

(** ** The band-plan combo box *)

Section BandPlanCombo.
Import BandPlanUi.

Lemma insertItem_end {A} (x : A) (l : list A) :
  insertItem (length l) x l = l ++ [x].
Proof.
  unfold insertItem. rewrite take_ge, drop_ge by lia. reflexivity.
Qed.

Lemma combo_tables_all (ts : list FrequencyAllocationTable) (i : nat)
    (combo : list (string * Z)) :
  length combo = S i ->
  combo_tables (map Some ts) i combo
  = Some (combo ++ imap (fun k t => (fat_name t, Z.of_nat (i + k))) ts).
Proof.
  revert i combo. induction ts as [|t ts IH]; intros i combo Hlen; cbn.
  - rewrite app_nil_r. reflexivity.
  - rewrite <- Hlen, insertItem_end.
    rewrite IH by (rewrite length_app; cbn; lia).
    rewrite <- app_assoc. cbn. rewrite Hlen, Nat.add_0_r.
    do 3 f_equal. apply imap_ext. intros k x _. cbn. f_equal. lia.
Qed.

Lemma combo_tables_null (pre : list FrequencyAllocationTable)
    (rest : list (option FrequencyAllocationTable)) (i : nat)
    (combo : list (string * Z)) :
  combo_tables (map Some pre ++ None :: rest) i combo = None.
Proof.
  revert i combo. induction pre as [|t pre IH]; intros i combo; cbn;
    [reflexivity|apply IH].
Qed.

(** X16.  For tables that were all loaded, the combo box filled by
    [deserializeFATs] holds [(No bandplan)] with data [-1] and then every
    table name with the index of its table; each item can be selected:
    [onBandPlanChanged] finds the table of that index, which becomes the
    current one, or none for [-1].  A combo box that is not empty is left
    as it is, and a null table in [m_FATs] leaves the filling without a
    result. *)
Theorem allocation_combo_selects (ts : list FrequencyAllocationTable) :
  populateAllocationCombo (map Some ts) []
  = Some (("(No bandplan)", -1)
          :: imap (fun k t => (fat_name t, Z.of_nat k)) ts)
  /\ (forall (k : nat) (t : FrequencyAllocationTable) (current : string),
        ts !! k = Some t ->
        exists calls,
          onBandPlanChanged (Z.of_nat k) (map Some ts) current true
          = Some (fat_name t, calls)
          /\ last calls = Some (pushFAT t))
  /\ (forall current : string,
        exists calls,
          onBandPlanChanged (-1) (map Some ts) current true
          = Some ("", calls)
          /\ last calls = Some (setFATsVisible false))
  /\ (forall (item : string * Z) (combo : list (string * Z)),
        populateAllocationCombo (map Some ts) (item :: combo)
        = Some (item :: combo))
  /\ (forall pre rest,
        populateAllocationCombo (map Some pre ++ None :: rest) [] = None).
Proof.
  split; [|split; [|split; [|split]]].
  - unfold populateAllocationCombo. cbn [length Nat.eqb].
    change (insertItem 0 ("(No bandplan)", -1) [])
      with [("(No bandplan)", -1)].
    rewrite (combo_tables_all ts 0) by reflexivity. reflexivity.
  - intros k t current Hk. unfold onBandPlanChanged. cbn [negb].
    replace (0 <=? Z.of_nat k) with true by (symmetry; apply Z.leb_le; lia).
    rewrite Nat2Z.id, list_lookup_fmap, Hk. cbn [fmap option_fmap option_map].
    eexists. split; [reflexivity|].
    destruct (0 <? String.length current)%nat; reflexivity.
  - intros current. unfold onBandPlanChanged. cbn [negb].
    change (0 <=? -1) with false. cbv iota.
    eexists. split; [reflexivity|].
    destruct (0 <? String.length current)%nat; reflexivity.
  - intros item combo. reflexivity.
  - intros pre rest. unfold populateAllocationCombo. cbn [length Nat.eqb].
    apply combo_tables_null.
Qed.

End BandPlanCombo.

(** ** Loading the stored gains *)

Section DeserializeFacts.
Import ConfigIO.
Context {Object : Type} `{SuscanObject Object} `{SuscanFieldList Object}.

Lemma gain_prefix (d s : string) : substring 0 5 (Config.fullName d s) = "gain.".
Proof. destruct d; reflexivity. Qed.

Lemma deserialize_gains_spec (conf : Object) (n i : nat)
    (g : gmap string SUFLOAT) :
  (forall name,
      name ∈ filter (fun name => substring 0 5 name = "gain.")
                    (map (fieldName conf) (seq i n)) ->
      exists v, get_float conf name 0%Q = Return v) ->
  exists g',
    deserialize_gains conf i n g = Return g'
    /\ forall key,
         g' !! key
         = if bool_decide
                (key ∈ filter (fun name => substring 0 5 name = "gain.")
                              (map (fieldName conf) (seq i n)))
           then try_catch (get_float conf key 0%Q)
           else g !! key.
Proof.
  revert i g. induction n as [|n IH]; intros i g Hread.
  - exists g. split; [reflexivity|]. intros key. cbn.
    rewrite bool_decide_eq_false_2 by (apply not_elem_of_nil). reflexivity.
  - cbn [deserialize_gains seq map]. cbn [seq map] in Hread.
    destruct (String.eqb_spec (substring 0 5 (fieldName conf i)) "gain.")
      as [Hp|Hp].
    + rewrite filter_cons_True in Hread |- * by exact Hp.
      destruct (Hread (fieldName conf i)) as (v & Hv); [left|].
      rewrite Hv. cbn [mbind except_bind].
      destruct (IH (S i) (<[fieldName conf i := v]> g)) as (g' & Hg & Hk).
      { intros name Hin. apply Hread. right. exact Hin. }
      exists g'. split; [exact Hg|]. intros key. rewrite Hk.
      destruct (decide (key ∈ filter (fun name => substring 0 5 name = "gain.")
                                     (map (fieldName conf) (seq (S i) n))))
        as [Hin|Hnin].
      * rewrite !bool_decide_eq_true_2; [reflexivity|right; exact Hin|exact Hin].
      * rewrite (bool_decide_eq_false_2 _ Hnin).
        destruct (decide (key = fieldName conf i)) as [->|Hne].
        -- rewrite bool_decide_eq_true_2 by left.
           rewrite lookup_insert_eq, Hv. reflexivity.
        -- rewrite lookup_insert_ne by congruence.
           rewrite bool_decide_eq_false_2; [reflexivity|].
           intros Hc. apply elem_of_cons in Hc. tauto.
    + rewrite filter_cons_False in Hread |- * by exact Hp.
      apply IH. exact Hread.
Qed.

(** X17.  When every gain field of the stored object can be read,
    [deserialize] succeeds; afterwards a key that names a gain field
    holds the value read for it, and every other key holds what it held
    before: fields without the [gain.] prefix never enter the store.  So
    a pair [(device, stage)] whose field [gain.device.stage] is stored
    reads the stored value. *)
Theorem deserialize_gains_loaded (conf : Object) (c : PanoramicDialogConfig) :
  (forall name, name ∈ gain_fields conf ->
     exists v, get_float conf name 0%Q = Return v) ->
  exists c',
    deserialize conf c = Return c'
    /\ (forall key,
          gains c' !! key
          = if bool_decide (key ∈ gain_fields conf)
            then try_catch (get_float conf key 0%Q)
            else gains c !! key)
    /\ (forall d s v,
          Config.fullName d s ∈ map (fieldName conf) (seq 0 (getFieldCount conf)) ->
          get_float conf (Config.fullName d s) 0%Q = Return v ->
          Config.hasGain c' d s = true /\ Config.getGain c' d s = v).
Proof.
  intros Hread.
  destruct (deserialize_gains_spec conf (getFieldCount conf) 0 (gains c) Hread)
    as (g' & Hg & Hk).
  exists {| gains := g' |}. unfold deserialize. rewrite Hg.
  split; [reflexivity|]. split; [exact Hk|].
  intros d s v Hin Hv.
  assert (g' !! Config.fullName d s = Some v) as Hl.
  { rewrite Hk, bool_decide_eq_true_2, Hv; [reflexivity|].
    unfold gain_fields. apply list_elem_of_filter. split; [|exact Hin].
    apply gain_prefix. }
  unfold Config.hasGain, Config.getGain. cbn [gains].
  unfold SUFLOAT in *. rewrite Hl.
  split; [apply bool_decide_eq_true; eauto|reflexivity].
Qed.

End DeserializeFacts.

Lemma deserialize_gains_loaded_witness :
  exists c',
    ConfigIO.deserialize Scenarios.stored_conf Config.fresh = Return c'
    /\ Config.getGain c' "hackrf" "LNA" = 14%Q
    /\ Config.getGain c' "hackrf" "VGA" = 30%Q
    /\ gains c' !! "fullRange" = None.
Proof.
  destruct (deserialize_gains_loaded Scenarios.stored_conf Config.fresh)
    as (c' & Hd & Hk & Hg).
  { intros name Hin. cbn in Hin.
    apply elem_of_cons in Hin. destruct Hin as [->|Hin];
      [eexists; reflexivity|].
    apply elem_of_cons in Hin. destruct Hin as [->|Hin];
      [eexists; reflexivity|].
    apply not_elem_of_nil in Hin. contradiction. }
  exists c'. split; [exact Hd|].
  split; [apply (Hg "hackrf" "LNA" 14%Q);
          [cbn; right; left|reflexivity]|].
  split; [apply (Hg "hackrf" "VGA" 30%Q);
          [cbn; right; right; left|reflexivity]|].
  rewrite Hk. reflexivity.
Defined.

(** ** A catalogue with a bad table *)

Section LoaderAbort.
Import BandPlan.
Context {Object : Type} `{SuscanObject Object}.

Lemma load_tables_app (good more : list Object)
    (descr : list (string * Object))
    (pre : list (option FrequencyAllocationTable)) :
  Forall2 (fun p nb => table_of p nb.1 nb.2) good descr ->
  load_tables (good ++ more) (length pre) pre
  = load_tables more (length pre + length good)
      (pre ++ map (fun nb => Some {| fat_name := nb.1;
                                     fat_bands := good_bands nb.2 |}) descr).
Proof.
  intros Hwf. revert pre.
  induction Hwf as [|p [name bands] good descr Hp _ IH]; intros pre.
  - cbn. rewrite app_nil_r, Nat.add_0_r. reflexivity.
  - destruct Hp as ((nameField & Hn & Hv) & Hb & Ht). cbn in Hv, Hb, Ht.
    cbn [app load_tables]. rewrite Hn, Hb, Ht. cbn [is_set negb].
    rewrite resize_ge by lia.
    replace (length pre + 1 - length pre)%nat with 1%nat by lia.
    cbn [replicate].
    rewrite insert_app_r_alt by reflexivity.
    rewrite Nat.sub_diag. cbn [insert list_insert].
    rewrite load_bands_last. cbn [fat_name fat_bands newTable app].
    replace (length pre + 1)%nat
      with (length (pre ++ [Some {| fat_name := value nameField;
                                    fat_bands := good_bands bands |}]))
      by (rewrite length_app; reflexivity).
    unfold good_bands at 1. rewrite IH.
    rewrite length_app. cbn [length map].
    rewrite <- app_assoc. cbn [app]. rewrite Hv.
    f_equal. lia.
Qed.

(** X18.  A catalogue entry without a name, without bands, or whose bands
    are no set makes [deserializeFATs] end with an exception: the tables
    in front of it are loaded in full, its own place holds a null table
    when the name could not be read and an empty table of that name
    otherwise, and no table behind it is loaded. *)
Theorem deserializeFATs_aborts_at_bad_table (good rest : list Object)
    (bad : Object) (descr : list (string * Object))
    (entry : option FrequencyAllocationTable) :
  Forall2 (fun p nb => table_of p nb.1 nb.2) good descr ->
  (getField bad "name" = Raise /\ entry = None)
  \/ (exists nameField,
        getField bad "name" = Return nameField
        /\ entry = Some (newTable (value nameField))
        /\ (getField bad "bands" = Raise
            \/ exists bands, getField bad "bands" = Return bands
                             /\ is_set (getType bands) = false)) ->
  deserializeFATs (good ++ bad :: rest) []
  = (map (fun nb => Some {| fat_name := nb.1;
                            fat_bands := good_bands nb.2 |}) descr
     ++ [entry],
     true).
Proof.
  intros Hwf Hbad. unfold deserializeFATs. cbn [length Nat.eqb].
  pose proof (load_tables_app good (bad :: rest) descr [] Hwf) as E.
  cbn [app length Nat.add] in E. rewrite E. clear E.
  set (pre := map (fun nb => Some {| fat_name := nb.1;
                                     fat_bands := good_bands nb.2 |}) descr).
  assert (length good = length pre) as Hlen.
  { subst pre. rewrite length_map. exact (Forall2_length _ _ _ Hwf). }
  rewrite Hlen. cbn [load_tables].
  rewrite resize_ge by lia.
  replace (length pre + 1 - length pre)%nat with 1%nat by lia.
  cbn [replicate].
  destruct Hbad as [[Hn ->]|(nameField & Hn & -> & Hb)]; rewrite Hn;
    [reflexivity|].
  rewrite insert_app_r_alt by reflexivity.
  rewrite Nat.sub_diag. cbn [insert list_insert].
  destruct Hb as [Hb|(bands & Hb & Ht)]; rewrite Hb; [reflexivity|].
  rewrite Ht. reflexivity.
Qed.

End LoaderAbort.

Lemma deserializeFATs_aborts_at_bad_table_witness :
  BandPlan.deserializeFATs
    ([Examples.table "ITU" [Examples.band_full]]
     ++ ObjectModel.OObject [("name", ObjectModel.OField "Broken")]
        :: [Examples.table "Local" [Examples.band_full]]) []
  = (map (fun nb : string * ObjectModel.Object =>
            Some {| fat_name := nb.1;
                    fat_bands := BandPlan.good_bands nb.2 |})
         [("ITU", ObjectModel.OSet [Examples.band_full])]
     ++ [Some (BandPlan.newTable "Broken")],
     true).
Proof.
  apply (deserializeFATs_aborts_at_bad_table
           [Examples.table "ITU" [Examples.band_full]]
           [Examples.table "Local" [Examples.band_full]]
           (ObjectModel.OObject [("name", ObjectModel.OField "Broken")])
           [("ITU", ObjectModel.OSet [Examples.band_full])]).
  - repeat constructor; cbn; eexists; split; reflexivity.
  - right. exists (ObjectModel.OField "Broken").
    split; [reflexivity|]. split; [reflexivity|]. left. reflexivity.
Defined.
